(** * AddUsing: the clangd tweak that removes a namespace qualifier under the
    cursor and adds a using-declaration instead.

    Shallow embedding of
    [clang-tools-extra/clangd/refactor/tweaks/AddUsing.cpp]:
    [UsingFinder], [findInsertionPoint], [AddUsing::prepare],
    [AddUsing::apply] and [AddUsing::title].

    The clang and LLVM interfaces the tweak consumes (source locations, the
    source manager, the token buffer, the AST, tooling replacements) are not
    part of that file.  They appear here as records of the queries the tweak
    makes, or as small definitions whose doc comment says where they come
    from. *)

From Stdlib Require Import ZArith List String Ascii Bool Lia.
Import ListNotations.

Set Warnings "-register-all".

Local Open Scope string_scope.
Local Open Scope Z_scope.

(** ** Outcomes

    [llvm::Expected<T>] is a value or an error carrying a message.  The C++
    code can also leave the defined behaviour of the language (a null pointer
    dereferenced, [front()] of an empty range) or stop on a failed [assert];
    the embedding makes those outcomes explicit instead of hiding them. *)

Inductive Crash : Type :=
| NullDereference
| EmptyRangeAccess
| AssertionFailure.

Inductive Expected (A : Type) : Type :=
| Success (a : A)
| Failure (msg : string)
| Undefined (c : Crash).

Arguments Success {A} a.
Arguments Failure {A} msg.
Arguments Undefined {A} c.

Definition bind {A B : Type} (m : Expected A) (k : A -> Expected B)
  : Expected B :=
  match m with
  | Success a => k a
  | Failure msg => Failure msg
  | Undefined c => Undefined c
  end.

Notation "x <- m ;; k" := (bind m (fun x => k))
  (at level 61, m at next level, right associativity).

(** [llvm::createStringError(llvm::inconvertibleErrorCode(), Msg)] *)
Definition createStringError {A : Type} (Msg : string) : Expected A :=
  Failure Msg.

Definition dquote : string := String (ascii_of_nat 34) EmptyString.
Definition newline : string := String (ascii_of_nat 10) EmptyString.

(** ** Source locations (clang/Basic/SourceLocation.h)

    A [SourceLocation] is a raw 32-bit encoding: [0] is the invalid location
    (the value of a default-constructed [SourceLocation]) and the top bit
    marks locations that come from a macro expansion. *)

Record SourceLocation : Type := mkLoc { ID : Z }.

Definition NoLoc : SourceLocation := mkLoc 0.

Definition isValid (L : SourceLocation) : bool := negb (ID L =? 0).
Definition isInvalid (L : SourceLocation) : bool := ID L =? 0.
Definition isMacroID (L : SourceLocation) : bool := Z.testbit (ID L) 31.

Definition getLocWithOffset (L : SourceLocation) (Offset : Z)
  : SourceLocation :=
  mkLoc ((ID L + Offset) mod 2 ^ 32).

Record SourceRange : Type := mkRange {
  getBegin : SourceLocation;
  getEnd : SourceLocation
}.

Definition FileID : Type := Z.

(** How the source manager classifies a location: written in a file, or
    produced by expanding a macro, either from the macro's body or from one of
    its arguments. *)
Inductive LocKind : Type :=
| FileLoc
| MacroArgExpansion
| MacroBodyExpansion.

(** The queries the tweak makes to [clang::SourceManager]. *)
Record SourceManager : Type := {
  getFileID : SourceLocation -> FileID;
  getMainFileID : FileID;
  isBeforeInTranslationUnit : SourceLocation -> SourceLocation -> bool;
  getLocKind : SourceLocation -> LocKind;
  isWrittenInSameFile : SourceLocation -> SourceLocation -> bool;
  getExpansionLoc : SourceLocation -> SourceLocation;
  getDecomposedLoc : SourceLocation -> FileID * Z
}.

Definition isMacroBodyExpansion (SM : SourceManager) (L : SourceLocation)
  : bool :=
  match getLocKind SM L with
  | MacroBodyExpansion => true
  | _ => false
  end.

Definition isMacroArgExpansion (SM : SourceManager) (L : SourceLocation)
  : bool :=
  match getLocKind SM L with
  | MacroArgExpansion => true
  | _ => false
  end.

(** ** Tokens (clang/Tooling/Syntax/Tokens.h) *)

Inductive TokenKind : Type :=
| tok_l_brace
| tok_r_brace
| tok_l_paren
| tok_r_paren
| tok_semi
| tok_coloncolon
| tok_identifier
| tok_kw_namespace
| tok_kw_using
| tok_kw_void
| tok_other.

Definition is_l_brace (K : TokenKind) : bool :=
  match K with
  | tok_l_brace => true
  | _ => false
  end.

Record Token : Type := mkToken {
  kind : TokenKind;
  location : SourceLocation;
  length : Z
}.

Definition endLocation (T : Token) : SourceLocation :=
  getLocWithOffset (location T) (length T).

(** [syntax::Token::range(SM, First, Last).length()]: the number of
    characters from the start of [First] to the end of [Last], an
    [unsigned]. *)
Definition Token_range_length (SM : SourceManager) (First Last : Token) : Z :=
  (snd (getDecomposedLoc SM (location Last)) + length Last
   - snd (getDecomposedLoc SM (location First))) mod 2 ^ 32.

Record TokenBuffer : Type := {
  expandedTokens : SourceRange -> list Token;
  spelledForExpanded : list Token -> option (list Token)
}.

(** [ArrayRef::front()] and [ArrayRef::back()]. *)
Definition front {A : Type} (l : list A) : option A := hd_error l.

Fixpoint back {A : Type} (l : list A) : option A :=
  match l with
  | [] => None
  | [x] => Some x
  | _ :: rest => back rest
  end.

(** ** Namespaces and nested name specifiers *)

Record NamespaceDecl : Type := mkNamespace {
  (* identity of the declaration [getCanonicalDecl()] points to *)
  getCanonicalDecl : Z;
  (* names of the namespace and of the namespaces around it, outermost first *)
  getQualifiedPath : list string;
  getSourceRange : SourceRange
}.

(** What one segment of a qualifier resolves to. *)
Inductive ScopeEntity : Type :=
| EntNamespace (ND : NamespaceDecl)
| EntNamespaceAlias (Target : NamespaceDecl)
| EntType
| EntUnresolved.

Record Segment : Type := mkSegment {
  (* the segment as it is written in the source, possibly a macro name *)
  writtenAs : string;
  entity : ScopeEntity
}.

Record NestedNameSpecifier : Type := mkNNS {
  segments : list Segment
}.

(** Modelled from the spec: [NestedNameSpecifier::getAsNamespace] is declared
    in clang/AST/NestedNameSpecifier.h, which is not among the sources.  The
    data model describes it as "the resolved scope entity for the whole chain
    (or none if any segment fails to resolve to a namespace)". *)
Fixpoint resolveChain (Segs : list Segment) : option NamespaceDecl :=
  match Segs with
  | [] => None
  | Seg :: Rest =>
      match entity Seg with
      | EntNamespace ND =>
          match Rest with
          | [] => Some ND
          | _ :: _ => resolveChain Rest
          end
      | _ => None
      end
  end.

(** Modelled from the spec: [NestedNameSpecifier::getAsNamespace], see
    [resolveChain]; a null pointer is [None]. *)
Definition getAsNamespace (N : NestedNameSpecifier) : option NamespaceDecl :=
  resolveChain (segments N).

(** Modelled from the spec: the text [NestedNameSpecifier::print] writes for
    a namespace, each name of the path followed by the separator. *)
Definition printPath (Path : list string) : string :=
  fold_right (fun Part Acc => Part ++ "::" ++ Acc) "" Path.

(** Modelled from the spec: [NestedNameSpecifier::print] is defined in
    clang/lib/AST/NestedNameSpecifier.cpp, which is not among the sources.
    The edit synthesizer's text contains "the fully-qualified scope path of
    the candidate's resolved namespace chain (printed canonically, independent
    of original spelling/macros), a separator". *)
Definition print (N : NestedNameSpecifier) : string :=
  match getAsNamespace N with
  | Some ND => printPath (getQualifiedPath ND)
  | None => ""
  end.

Record NestedNameSpecifierLoc : Type := mkNNSLoc {
  getNestedNameSpecifier : option NestedNameSpecifier;
  getBeginLoc : SourceLocation;
  getEndLoc : SourceLocation
}.

(** A default-constructed [NestedNameSpecifierLoc]. *)
Definition emptyNNSLoc : NestedNameSpecifierLoc := mkNNSLoc None NoLoc NoLoc.

Definition hasQualifier (Q : NestedNameSpecifierLoc) : bool :=
  match getNestedNameSpecifier Q with
  | Some _ => true
  | None => false
  end.

Definition getQualifierRange (Q : NestedNameSpecifierLoc) : SourceRange :=
  mkRange (getBeginLoc Q) (getEndLoc Q).

(** ** Declaration contexts and declarations *)

Inductive DeclContext : Type :=
| TranslationUnit
| NamespaceContext (ND : NamespaceDecl) (Parent : DeclContext)
| OtherContext (Id : Z) (Parent : DeclContext).

(** Two contexts with the same primary context: every re-opening of a
    namespace shares the namespace's canonical declaration. *)
Definition samePrimaryContext (A B : DeclContext) : bool :=
  match A, B with
  | TranslationUnit, TranslationUnit => true
  | NamespaceContext N1 _, NamespaceContext N2 _ =>
      getCanonicalDecl N1 =? getCanonicalDecl N2
  | OtherContext I1 _, OtherContext I2 _ => I1 =? I2
  | _, _ => false
  end.

(** Modelled from the spec: [DeclContext::Encloses] is defined in
    clang/lib/AST/DeclBase.cpp, which is not among the sources.  The scanner
    keeps the declarations "whose declaring scope encloses that selection's
    scope": [This] is [DC] or one of the contexts around [DC]. *)
Fixpoint Encloses (This DC : DeclContext) : bool :=
  samePrimaryContext DC This
  || match DC with
     | TranslationUnit => false
     | NamespaceContext _ Parent => Encloses This Parent
     | OtherContext _ Parent => Encloses This Parent
     end.

(** Modelled from the spec: [DeclContext::getEnclosingNamespaceContext] is
    defined in clang/lib/AST/DeclBase.cpp, which is not among the sources.
    It yields "the innermost named enclosing scope of the selection", or the
    translation unit when there is none. *)
Fixpoint getEnclosingNamespaceContext (DC : DeclContext) : DeclContext :=
  match DC with
  | OtherContext _ Parent => getEnclosingNamespaceContext Parent
  | _ => DC
  end.

(** [dyn_cast<NamespaceDecl>] *)
Definition dyn_cast_NamespaceDecl (DC : DeclContext) : option NamespaceDecl :=
  match DC with
  | NamespaceContext ND _ => Some ND
  | _ => None
  end.

Record UsingDecl : Type := mkUsing {
  getUsingLoc : SourceLocation;
  (* end of the declaration's source range; the tweak never asks for it *)
  getUsingEndLoc : SourceLocation;
  getQualifier : NestedNameSpecifier;
  getName : string;
  getUsingDeclContext : DeclContext
}.

Inductive Decl : Type :=
| DUsing (D : UsingDecl)
| DOther (Context : DeclContext) (BeginLoc : SourceLocation)
         (Children : list Decl).

Definition getDeclContext (D : Decl) : DeclContext :=
  match D with
  | DUsing U => getUsingDeclContext U
  | DOther Context _ _ => Context
  end.

Definition getDeclBeginLoc (D : Decl) : SourceLocation :=
  match D with
  | DUsing U => getUsingLoc U
  | DOther _ BeginLoc _ => BeginLoc
  end.

(** ** The selection tree (clangd/Selection.h) *)

Record DeclRefExpr : Type := mkDeclRefExpr {
  DeclRefExpr_getQualifierLoc : NestedNameSpecifierLoc;
  (* [getDecl()->getName()] *)
  DeclRefExpr_getDeclName : string
}.

Record ElaboratedTypeLoc : Type := mkElaboratedTypeLoc {
  ElaboratedTypeLoc_getQualifierLoc : NestedNameSpecifierLoc;
  (* [getType().getUnqualifiedType().getBaseTypeIdentifier()->getName()] *)
  ElaboratedTypeLoc_getBaseTypeName : string
}.

Record TypeLoc : Type := mkTypeLoc {
  (* [getAs<ElaboratedTypeLoc>()] *)
  getAsElaboratedTypeLoc : option ElaboratedTypeLoc
}.

(** [DynTypedNode]: what a selection-tree node stands for. *)
Inductive DynTypedNode : Type :=
| ASTNestedNameSpecifierLoc
| ASTTypeLoc (T : TypeLoc)
| ASTDeclRefExpr (D : DeclRefExpr)
| ASTOther.

Definition isNestedNameSpecifierLoc (N : DynTypedNode) : bool :=
  match N with
  | ASTNestedNameSpecifierLoc => true
  | _ => false
  end.

Definition isTypeLoc (N : DynTypedNode) : bool :=
  match N with
  | ASTTypeLoc _ => true
  | _ => false
  end.

Inductive Node : Type :=
| mkNode (ASTNode : DynTypedNode) (Parent : option Node)
         (Context : DeclContext).

Definition ASTNode (N : Node) : DynTypedNode :=
  match N with
  | mkNode A _ _ => A
  end.

Definition Parent (N : Node) : option Node :=
  match N with
  | mkNode _ P _ => P
  end.

Definition Node_getDeclContext (N : Node) : DeclContext :=
  match N with
  | mkNode _ _ C => C
  end.

(** ** The parsed file and the selection (clangd/ParsedAST.h, Tweak.h) *)

Record ParsedAST : Type := {
  getSourceManager : SourceManager;
  getTokens : TokenBuffer;
  (* the declarations [TraverseAST] starts from *)
  getTraversalScope : list Decl;
  getLocalTopLevelDecls : list Decl
}.

Record Selection : Type := {
  AST : ParsedAST;
  Cursor : SourceLocation;
  commonAncestor : option Node
}.

(** ** Replacements and effects (clang/Tooling/Core/Replacement.h, Tweak.h) *)

Record Replacement : Type := mkRawReplacement {
  getFilePath : FileID;
  getOffset : Z;
  getLength : Z;
  getReplacementText : string
}.

(** [tooling::Replacement(SM, Start, Length, ReplacementText)] *)
Definition mkReplacement (SM : SourceManager) (Start : SourceLocation)
  (Length : Z) (ReplacementText : string) : Replacement :=
  mkRawReplacement (fst (getDecomposedLoc SM Start))
                   (snd (getDecomposedLoc SM Start))
                   Length ReplacementText.

Definition Replacements : Type := list Replacement.

(** Modelled from the spec: what "overlap in source offset ranges" means for
    two entries of an EditSet: their half-open offset ranges share a
    character, or one is an insertion strictly inside the other's range. *)
Definition overlapsWith (A B : Replacement) : bool :=
  (getOffset A <? getOffset B + getLength B)
  && (getOffset B <? getOffset A + getLength A).

(** The order of the entries of an EditSet: by offset, then by length. *)
Definition Replacement_before (A B : Replacement) : bool :=
  (getOffset A <? getOffset B)
  || ((getOffset A =? getOffset B) && (getLength A <=? getLength B)).

Fixpoint insertOrdered (New : Replacement) (R : Replacements)
  : Replacements :=
  match R with
  | [] => [New]
  | Old :: Rest =>
      if Replacement_before New Old then New :: Old :: Rest
      else Old :: insertOrdered New Rest
  end.

(** Modelled from the spec: [tooling::Replacements::add] is defined in
    clang/lib/Tooling/Core/Replacement.cpp, which is not among the sources.
    An EditSet is "an ordered collection of non-overlapping (location, length,
    replacement-text) triples, all anchored within a single source file":
    adding an entry for another file, or one that overlaps an entry already
    there, is an error. *)
Definition Replacements_add (R : Replacements) (New : Replacement)
  : Expected Replacements :=
  if existsb (fun Old => negb (getFilePath Old =? getFilePath New)) R then
    Failure "replacement for a different file"
  else if existsb (overlapsWith New) R then
    Failure "replacement overlaps an existing one"
  else
    Success (insertOrdered New R).

Record Effect : Type := mkEffect {
  (* the files to edit, each with its replacements *)
  ApplyEdits : list (FileID * Replacements)
}.

(** Modelled from the spec: [Effect::mainFileEdit(SM, R)] is defined in
    clangd/refactor/Tweak.cpp, which is not among the sources.  The edit
    synthesizer "returns a single-file edit", the replacements [R] for the
    main file. *)
Definition mainFileEdit (SM : SourceManager) (R : Replacements) : Effect :=
  mkEffect [(getMainFileID SM, R)].

(** ** UsingFinder

    Locates all "using" statements relevant to [SelectionDeclContext].
    [Results] is the vector the visitor appends to; every visiting function
    returns the flag "go on" together with the vector. *)

Section UsingFinder.

Variable SelectionDeclContext : DeclContext.
Variable SM : SourceManager.

Definition VisitUsingDecl (D : UsingDecl) (Results : list UsingDecl)
  : bool * list UsingDecl :=
  let Loc := getUsingLoc D in
  if negb (getFileID SM Loc =? getMainFileID SM) then (true, Results)
  else if Encloses (getUsingDeclContext D) SelectionDeclContext then
    (true, (Results ++ [D])%list)
  else (true, Results).

(** [UsingFinder::TraverseDecl].  The walk it delegates to,
    [RecursiveASTVisitor<UsingFinder>::TraverseDecl], is not among the
    sources and is modelled from the spec, whose scanner collects "in source
    order": visit the declaration, then traverse its children in order,
    stopping as soon as a visit answers "stop". *)
Fixpoint TraverseDecl (D : Decl) (Results : list UsingDecl) {struct D}
  : bool * list UsingDecl :=
  (* There is no need to go deeper into nodes that do not enclose
     selection. *)
  if Encloses (getDeclContext D) SelectionDeclContext then
    match D with
    | DUsing U => VisitUsingDecl U Results
    | DOther _ _ Children =>
        (fix TraverseChildren (Cs : list Decl) (R : list UsingDecl)
           : bool * list UsingDecl :=
           match Cs with
           | [] => (true, R)
           | C :: Rest =>
               let (Continue, R') := TraverseDecl C R in
               if Continue then TraverseChildren Rest R' else (false, R')
           end) Children Results
    end
  else (true, Results).

Fixpoint TraverseDecls (Ds : list Decl) (Results : list UsingDecl)
  : bool * list UsingDecl :=
  match Ds with
  | [] => (true, Results)
  | D :: Rest =>
      let (Continue, R') := TraverseDecl D Results in
      if Continue then TraverseDecls Rest R' else (false, R')
  end.

End UsingFinder.

(** [UsingFinder(Usings, SelectionDeclContext, SM).TraverseAST(Ctx)]: the
    traversal of every declaration of the traversal scope, in order, and the
    vector it leaves in [Usings]. *)
Definition TraverseAST (SelectionDeclContext : DeclContext)
  (SM : SourceManager) (A : ParsedAST) : list UsingDecl :=
  snd (TraverseDecls SelectionDeclContext SM (getTraversalScope A) []).

(** ** findInsertionPoint *)

Record InsertionPointData : Type := mkInsertionPointData {
  (* Location to insert the "using" statement. If invalid then the statement
     should not be inserted at all (it already exists). *)
  Loc : SourceLocation;
  (* Extra suffix to place after the "using" statement. *)
  Suffix : string
}.

(** A default-constructed [InsertionPointData]. *)
Definition emptyInsertionPointData : InsertionPointData :=
  mkInsertionPointData NoLoc "".

(** How the loop over the using-declarations ends: by [return], or by
    running off the end (or [break]) with the current [LastUsingLoc]. *)
Inductive LoopExit : Type :=
| Returned (Out : InsertionPointData)
| Finished (LastUsingLoc : SourceLocation).

Definition namespaceOf (Q : NestedNameSpecifierLoc) : option NamespaceDecl :=
  match getNestedNameSpecifier Q with
  | Some N => getAsNamespace N
  | None => None
  end.

Fixpoint scanUsings (SM : SourceManager) (Cursor : SourceLocation)
  (QualifierToRemove : NestedNameSpecifierLoc) (Name : string)
  (Usings : list UsingDecl) (LastUsingLoc : SourceLocation)
  : Expected LoopExit :=
  match Usings with
  | [] => Success (Finished LastUsingLoc)
  | U :: Rest =>
      if isBeforeInTranslationUnit SM Cursor (getUsingLoc U) then
        (* "Usings" is sorted, so we're done. *)
        Success (Finished LastUsingLoc)
      else
        match getAsNamespace (getQualifier U), namespaceOf QualifierToRemove
        with
        | Some UN, Some QN =>
            if (getCanonicalDecl UN =? getCanonicalDecl QN)
               && (getName U =? Name)%string
            then Success (Returned emptyInsertionPointData)
            else scanUsings SM Cursor QualifierToRemove Name Rest
                            (getUsingLoc U)
        | _, _ => Undefined NullDereference
        end
  end.

Definition msgNamespaceWithNoBrace : string := "Namespace with no {".

Definition msgCannotFindPlace : string :=
  Eval cbv in
    ("Cannot find place to insert " ++ dquote ++ "using" ++ dquote)%string.

(** The last resort: above the first top level decl. *)
Definition aboveFirstTopLevelDecl (SM : SourceManager) (A : ParsedAST)
  : Expected InsertionPointData :=
  match getLocalTopLevelDecls A with
  | [] => createStringError msgCannotFindPlace
  | TLD0 :: _ =>
      Success (mkInsertionPointData
                 (getExpansionLoc SM (getDeclBeginLoc TLD0))
                 (newline ++ newline))
  end.

Definition findInsertionPoint (Inputs : Selection)
  (QualifierToRemove : NestedNameSpecifierLoc) (Name : string)
  : Expected InsertionPointData :=
  let SM := getSourceManager (AST Inputs) in
  match commonAncestor Inputs with
  | None => Undefined NullDereference
  | Some Ancestor =>
      let Usings := TraverseAST (Node_getDeclContext Ancestor) SM (AST Inputs) in
      Exit <- scanUsings SM (Cursor Inputs) QualifierToRemove Name Usings NoLoc ;;
      match Exit with
      | Returned Out => Success Out
      | Finished LastUsingLoc =>
          if isValid LastUsingLoc then
            Success (mkInsertionPointData LastUsingLoc "")
          else
            (* No relevant "using" statements. Try the nearest namespace
               level. *)
            let NS :=
              getEnclosingNamespaceContext (Node_getDeclContext Ancestor) in
            match dyn_cast_NamespaceDecl NS with
            | Some ND =>
                let Toks :=
                  expandedTokens (getTokens (AST Inputs)) (getSourceRange ND) in
                match find (fun Tok => is_l_brace (kind Tok)) Toks with
                | None => createStringError msgNamespaceWithNoBrace
                | Some Tok =>
                    if isInvalid (endLocation Tok) then
                      createStringError msgNamespaceWithNoBrace
                    else if negb (isMacroID (endLocation Tok)) then
                      Success (mkInsertionPointData (endLocation Tok) newline)
                    else aboveFirstTopLevelDecl SM (AST Inputs)
                end
            | None => aboveFirstTopLevelDecl SM (AST Inputs)
            end
      end
  end.

(** ** The tweak *)

Record AddUsing : Type := mkAddUsing {
  (* The qualifier to remove. Set by prepare(). *)
  QualifierToRemove : NestedNameSpecifierLoc;
  (* The name following QualifierToRemove. Set by prepare(). *)
  Name : string
}.

(** A freshly constructed tweak. *)
Definition newAddUsing : AddUsing := mkAddUsing emptyNNSLoc "".

Definition title (This : AddUsing) : string :=
  "Add using-declaration for " ++ Name This ++ " and remove qualifier.".

(** The loop of [prepare]: walk up the tree until the "main" node, an
    ElaboratedTypeLoc or a DeclRefExpr, is found. *)
Fixpoint walkUp (N : Node) : Node :=
  match N with
  | mkNode _ None _ => N
  | mkNode A (Some P) _ =>
      match A with
      | ASTNestedNameSpecifierLoc => walkUp P
      | ASTTypeLoc T =>
          match getAsElaboratedTypeLoc T with
          | Some _ => N
          | None =>
              if isTypeLoc (ASTNode P) || isNestedNameSpecifierLoc (ASTNode P)
              then walkUp P
              else N
          end
      | _ => N
      end
  end.

(** The assignments of [prepare] to the two members. *)
Definition setCandidate (N : Node) (This : AddUsing) : AddUsing :=
  match ASTNode N with
  | ASTDeclRefExpr D =>
      mkAddUsing (DeclRefExpr_getQualifierLoc D) (DeclRefExpr_getDeclName D)
  | ASTTypeLoc T =>
      match getAsElaboratedTypeLoc T with
      | Some E =>
          mkAddUsing (ElaboratedTypeLoc_getQualifierLoc E)
                     (ElaboratedTypeLoc_getBaseTypeName E)
      | None => This
      end
  | _ => This
  end.

Definition prepare (Inputs : Selection) (This : AddUsing) : bool * AddUsing :=
  let SM := getSourceManager (AST Inputs) in
  match commonAncestor Inputs with
  | None => (false, This)
  | Some Node0 =>
      let This' := setCandidate (walkUp Node0) This in
      let Q := QualifierToRemove This' in
      if negb (hasQualifier Q)
         || negb (match namespaceOf Q with Some _ => true | None => false end)
         || (Name This' =? "")%string
      then (false, This')
      else if isMacroBodyExpansion SM (getBeginLoc Q)
              || negb (isWrittenInSameFile SM (getBeginLoc Q) (getEndLoc Q))
      then (false, This')
      else (true, This')
  end.

Definition msgNoQualifierLength : string :=
  "Could not determine length of the qualifier".

Definition apply (Inputs : Selection) (This : AddUsing) : Expected Effect :=
  let SM := getSourceManager (AST Inputs) in
  let TB := getTokens (AST Inputs) in
  let Q := QualifierToRemove This in
  (* Determine the length of the qualifier under the cursor, then remove it. *)
  match spelledForExpanded TB (expandedTokens TB (getQualifierRange Q)) with
  | None => createStringError msgNoQualifierLength
  | Some SpelledTokens =>
      match front SpelledTokens, back SpelledTokens with
      | Some First, Some Last =>
          let Length := Token_range_length SM First Last in
          R <- Replacements_add [] (mkReplacement SM (location First) Length "") ;;
          InsertionPoint <- findInsertionPoint Inputs Q (Name This) ;;
          if isValid (Loc InsertionPoint) then
            (* Add the using statement at appropriate location. *)
            match getNestedNameSpecifier Q with
            | None => Undefined NullDereference
            | Some NNS =>
                let UsingText :=
                  "using " ++ print NNS ++ Name This ++ ";"
                  ++ Suffix InsertionPoint in
                if getFileID SM (Loc InsertionPoint) =? getMainFileID SM then
                  R' <- Replacements_add R
                          (mkReplacement SM (Loc InsertionPoint) 0 UsingText) ;;
                  Success (mainFileEdit SM R')
                else Undefined AssertionFailure
            end
          else Success (mainFileEdit SM R)
      | _, _ => Undefined EmptyRangeAccess
      end
  end.

(** ** Concrete files

    Small translation units, written out as the tweak sees them: the
    declarations, the tokens with their offsets, the selection.  All of them
    live in one file without macros, where the location of offset [n] has
    the raw encoding [n + 1]. *)

Definition at_ (Offset : Z) : SourceLocation := mkLoc (Offset + 1).

Definition tokenAt (K : TokenKind) (Offset Length : Z) : Token :=
  mkToken K (at_ Offset) Length.

Definition oneFileSM : SourceManager := {|
  getFileID := fun L => if isValid L then 1 else 0;
  getMainFileID := 1;
  isBeforeInTranslationUnit := fun A B => ID A <? ID B;
  getLocKind := fun _ => FileLoc;
  isWrittenInSameFile := fun _ _ => true;
  getExpansionLoc := fun L => L;
  getDecomposedLoc := fun L => (if isValid L then 1 else 0, ID L - 1)
|}.

(** The tokens of a file without macros: the expanded tokens of a range are
    the tokens that start inside it, and they are their own spelling. *)
Definition tokensOf (All : list Token) : TokenBuffer := {|
  expandedTokens := fun R =>
    filter (fun T => (ID (getBegin R) <=? ID (location T))
                     && (ID (location T) <=? ID (getEnd R))) All;
  spelledForExpanded := fun Ts =>
    match Ts with
    | [] => None
    | _ :: _ => Some Ts
    end
|}.

Definition fileOf (All : list Token) (TopLevel : list Decl) : ParsedAST := {|
  getSourceManager := oneFileSM;
  getTokens := tokensOf All;
  getTraversalScope := TopLevel;
  getLocalTopLevelDecls := TopLevel
|}.

(** A qualifier made of namespaces only, each written by its own name. *)
Definition namespaceSegment (Written : string) (ND : NamespaceDecl)
  : Segment :=
  mkSegment Written (EntNamespace ND).

(** [namespace a { namespace b { void f(); } } void g() { a::b::f(); }]
    with the cursor on [b] of [a::b::f]. *)
Module Nested.

Definition nsA : NamespaceDecl :=
  mkNamespace 1 ["a"] (mkRange (at_ 0) (at_ 40)).
Definition nsB : NamespaceDecl :=
  mkNamespace 2 ["a"; "b"] (mkRange (at_ 14) (at_ 38)).

Definition ctxA : DeclContext := NamespaceContext nsA TranslationUnit.
Definition ctxB : DeclContext := NamespaceContext nsB ctxA.
Definition ctxG : DeclContext := OtherContext 1 TranslationUnit.

Definition Tokens : list Token :=
  [tokenAt tok_kw_namespace 0 9; tokenAt tok_identifier 10 1;
   tokenAt tok_l_brace 12 1; tokenAt tok_kw_namespace 14 9;
   tokenAt tok_identifier 24 1; tokenAt tok_l_brace 26 1;
   tokenAt tok_kw_void 28 4; tokenAt tok_identifier 33 1;
   tokenAt tok_l_paren 34 1; tokenAt tok_r_paren 35 1;
   tokenAt tok_semi 36 1; tokenAt tok_r_brace 38 1;
   tokenAt tok_r_brace 40 1; tokenAt tok_kw_void 42 4;
   tokenAt tok_identifier 47 1; tokenAt tok_l_paren 48 1;
   tokenAt tok_r_paren 49 1; tokenAt tok_l_brace 51 1;
   tokenAt tok_identifier 53 1; tokenAt tok_coloncolon 54 2;
   tokenAt tok_identifier 56 1; tokenAt tok_coloncolon 57 2;
   tokenAt tok_identifier 59 1; tokenAt tok_l_paren 60 1;
   tokenAt tok_r_paren 61 1; tokenAt tok_semi 62 1;
   tokenAt tok_r_brace 64 1].

Definition TopLevel : list Decl :=
  [DOther TranslationUnit (at_ 0)
     [DOther ctxA (at_ 14) [DOther ctxB (at_ 28) []]];
   DOther TranslationUnit (at_ 42) []].

Definition Qualifier : NestedNameSpecifierLoc :=
  mkNNSLoc (Some (mkNNS [namespaceSegment "a" nsA; namespaceSegment "b" nsB]))
           (at_ 53) (at_ 57).

Definition CallNode : Node := mkNode ASTOther None ctxG.
Definition RefNode : Node :=
  mkNode (ASTDeclRefExpr (mkDeclRefExpr Qualifier "f")) (Some CallNode) ctxG.
Definition QualifierNode : Node :=
  mkNode ASTNestedNameSpecifierLoc (Some RefNode) ctxG.

Definition Inputs : Selection := {|
  AST := fileOf Tokens TopLevel;
  Cursor := at_ 56;
  commonAncestor := Some QualifierNode
|}.

(** The edits of the example scenario: delete [a::b::], insert
    [using a::b::f;] and a newline after the brace of [namespace b]. *)
Definition Deletion : Replacement := mkRawReplacement 1 53 6 "".
Definition ExpectedInsertion : Replacement :=
  mkRawReplacement 1 27 0 ("using a::b::f;" ++ newline).

End Nested.

(** [namespace a { void f(); void g(); } using a::g; void h() { a::f(); }]
    with the cursor on [f] of [a::f]. *)
Module Anchor.

Definition nsA : NamespaceDecl :=
  mkNamespace 1 ["a"] (mkRange (at_ 0) (at_ 34)).

Definition ctxA : DeclContext := NamespaceContext nsA TranslationUnit.
Definition ctxH : DeclContext := OtherContext 1 TranslationUnit.

Definition Tokens : list Token :=
  [tokenAt tok_kw_namespace 0 9; tokenAt tok_identifier 10 1;
   tokenAt tok_l_brace 12 1; tokenAt tok_kw_void 14 4;
   tokenAt tok_identifier 19 1; tokenAt tok_l_paren 20 1;
   tokenAt tok_r_paren 21 1; tokenAt tok_semi 22 1;
   tokenAt tok_kw_void 24 4; tokenAt tok_identifier 29 1;
   tokenAt tok_l_paren 30 1; tokenAt tok_r_paren 31 1;
   tokenAt tok_semi 32 1; tokenAt tok_r_brace 34 1;
   tokenAt tok_kw_using 36 5; tokenAt tok_identifier 42 1;
   tokenAt tok_coloncolon 43 2; tokenAt tok_identifier 45 1;
   tokenAt tok_semi 46 1; tokenAt tok_kw_void 48 4;
   tokenAt tok_identifier 53 1; tokenAt tok_l_paren 54 1;
   tokenAt tok_r_paren 55 1; tokenAt tok_l_brace 57 1;
   tokenAt tok_identifier 59 1; tokenAt tok_coloncolon 60 2;
   tokenAt tok_identifier 62 1; tokenAt tok_l_paren 63 1;
   tokenAt tok_r_paren 64 1; tokenAt tok_semi 65 1;
   tokenAt tok_r_brace 67 1].

Definition UsingG : UsingDecl :=
  mkUsing (at_ 36) (at_ 45) (mkNNS [namespaceSegment "a" nsA]) "g"
          TranslationUnit.

Definition TopLevel : list Decl :=
  [DOther TranslationUnit (at_ 0)
     [DOther ctxA (at_ 14) []; DOther ctxA (at_ 24) []];
   DUsing UsingG;
   DOther TranslationUnit (at_ 48) []].

Definition Qualifier : NestedNameSpecifierLoc :=
  mkNNSLoc (Some (mkNNS [namespaceSegment "a" nsA])) (at_ 59) (at_ 60).

Definition RefNode : Node :=
  mkNode (ASTDeclRefExpr (mkDeclRefExpr Qualifier "f"))
         (Some (mkNode ASTOther None ctxH)) ctxH.

Definition Inputs : Selection := {|
  AST := fileOf Tokens TopLevel;
  Cursor := at_ 62;
  commonAncestor := Some RefNode
|}.

End Anchor.

(** [namespace a { void f(); } namespace n { using a::f; } void h() { a::f(); }]
    with the cursor on [f] of the call: the using-declaration is in a
    namespace that does not enclose [h]. *)
Module Sibling.

Definition nsA : NamespaceDecl :=
  mkNamespace 1 ["a"] (mkRange (at_ 0) (at_ 24)).
Definition nsN : NamespaceDecl :=
  mkNamespace 2 ["n"] (mkRange (at_ 26) (at_ 52)).

Definition ctxA : DeclContext := NamespaceContext nsA TranslationUnit.
Definition ctxN : DeclContext := NamespaceContext nsN TranslationUnit.
Definition ctxH : DeclContext := OtherContext 1 TranslationUnit.

Definition Tokens : list Token :=
  [tokenAt tok_kw_namespace 0 9; tokenAt tok_identifier 10 1;
   tokenAt tok_l_brace 12 1; tokenAt tok_kw_void 14 4;
   tokenAt tok_identifier 19 1; tokenAt tok_l_paren 20 1;
   tokenAt tok_r_paren 21 1; tokenAt tok_semi 22 1;
   tokenAt tok_r_brace 24 1; tokenAt tok_kw_namespace 26 9;
   tokenAt tok_identifier 36 1; tokenAt tok_l_brace 38 1;
   tokenAt tok_kw_using 40 5; tokenAt tok_identifier 46 1;
   tokenAt tok_coloncolon 47 2; tokenAt tok_identifier 49 1;
   tokenAt tok_semi 50 1; tokenAt tok_r_brace 52 1;
   tokenAt tok_kw_void 54 4; tokenAt tok_identifier 59 1;
   tokenAt tok_l_paren 60 1; tokenAt tok_r_paren 61 1;
   tokenAt tok_l_brace 63 1; tokenAt tok_identifier 65 1;
   tokenAt tok_coloncolon 66 2; tokenAt tok_identifier 68 1;
   tokenAt tok_l_paren 69 1; tokenAt tok_r_paren 70 1;
   tokenAt tok_semi 71 1; tokenAt tok_r_brace 73 1].

Definition UsingF : UsingDecl :=
  mkUsing (at_ 40) (at_ 49) (mkNNS [namespaceSegment "a" nsA]) "f" ctxN.

Definition TopLevel : list Decl :=
  [DOther TranslationUnit (at_ 0) [DOther ctxA (at_ 14) []];
   DOther TranslationUnit (at_ 26) [DUsing UsingF];
   DOther TranslationUnit (at_ 54) []].

Definition Qualifier : NestedNameSpecifierLoc :=
  mkNNSLoc (Some (mkNNS [namespaceSegment "a" nsA])) (at_ 65) (at_ 66).

Definition RefNode : Node :=
  mkNode (ASTDeclRefExpr (mkDeclRefExpr Qualifier "f"))
         (Some (mkNode ASTOther None ctxH)) ctxH.

Definition Inputs : Selection := {|
  AST := fileOf Tokens TopLevel;
  Cursor := at_ 68;
  commonAncestor := Some RefNode
|}.

End Sibling.

(** [namespace a { void f(); } using a::f; void h() { a::f(); }]
    with the cursor on [f] of the call. *)
Module Dup.

Definition nsA : NamespaceDecl :=
  mkNamespace 1 ["a"] (mkRange (at_ 0) (at_ 24)).

Definition ctxA : DeclContext := NamespaceContext nsA TranslationUnit.
Definition ctxH : DeclContext := OtherContext 1 TranslationUnit.

Definition Tokens : list Token :=
  [tokenAt tok_kw_namespace 0 9; tokenAt tok_identifier 10 1;
   tokenAt tok_l_brace 12 1; tokenAt tok_kw_void 14 4;
   tokenAt tok_identifier 19 1; tokenAt tok_l_paren 20 1;
   tokenAt tok_r_paren 21 1; tokenAt tok_semi 22 1;
   tokenAt tok_r_brace 24 1; tokenAt tok_kw_using 26 5;
   tokenAt tok_identifier 32 1; tokenAt tok_coloncolon 33 2;
   tokenAt tok_identifier 35 1; tokenAt tok_semi 36 1;
   tokenAt tok_kw_void 38 4; tokenAt tok_identifier 43 1;
   tokenAt tok_l_paren 44 1; tokenAt tok_r_paren 45 1;
   tokenAt tok_l_brace 47 1; tokenAt tok_identifier 49 1;
   tokenAt tok_coloncolon 50 2; tokenAt tok_identifier 52 1;
   tokenAt tok_l_paren 53 1; tokenAt tok_r_paren 54 1;
   tokenAt tok_semi 55 1; tokenAt tok_r_brace 57 1].

Definition UsingF : UsingDecl :=
  mkUsing (at_ 26) (at_ 35) (mkNNS [namespaceSegment "a" nsA]) "f"
          TranslationUnit.

Definition TopLevel : list Decl :=
  [DOther TranslationUnit (at_ 0) [DOther ctxA (at_ 14) []];
   DUsing UsingF;
   DOther TranslationUnit (at_ 38) []].

Definition Qualifier : NestedNameSpecifierLoc :=
  mkNNSLoc (Some (mkNNS [namespaceSegment "a" nsA])) (at_ 49) (at_ 50).

Definition RefNode : Node :=
  mkNode (ASTDeclRefExpr (mkDeclRefExpr Qualifier "f"))
         (Some (mkNode ASTOther None ctxH)) ctxH.

Definition Inputs : Selection := {|
  AST := fileOf Tokens TopLevel;
  Cursor := at_ 52;
  commonAncestor := Some RefNode
|}.

End Dup.

(** [struct B { void f(); }; namespace a { struct S {}; }
     struct D : B { using B::f; void h() { a::S s; } };]
    with the cursor on [S] of [a::S]: the using-declaration of the class [D]
    names a member of the class [B]. *)
Module Member.

Definition nsA : NamespaceDecl :=
  mkNamespace 1 ["a"] (mkRange (at_ 24) (at_ 51)).

Definition ctxA : DeclContext := NamespaceContext nsA TranslationUnit.
Definition ctxB : DeclContext := OtherContext 1 TranslationUnit.
Definition ctxD : DeclContext := OtherContext 2 TranslationUnit.
Definition ctxH : DeclContext := OtherContext 3 ctxD.

Definition Tokens : list Token :=
  [tokenAt tok_other 0 6; tokenAt tok_identifier 7 1;
   tokenAt tok_l_brace 9 1; tokenAt tok_kw_void 11 4;
   tokenAt tok_identifier 16 1; tokenAt tok_l_paren 17 1;
   tokenAt tok_r_paren 18 1; tokenAt tok_semi 19 1;
   tokenAt tok_r_brace 21 1; tokenAt tok_semi 22 1;
   tokenAt tok_kw_namespace 24 9; tokenAt tok_identifier 34 1;
   tokenAt tok_l_brace 36 1; tokenAt tok_other 38 6;
   tokenAt tok_identifier 45 1; tokenAt tok_l_brace 47 1;
   tokenAt tok_r_brace 48 1; tokenAt tok_semi 49 1;
   tokenAt tok_r_brace 51 1; tokenAt tok_other 53 6;
   tokenAt tok_identifier 60 1; tokenAt tok_other 62 1;
   tokenAt tok_identifier 64 1; tokenAt tok_l_brace 66 1;
   tokenAt tok_kw_using 68 5; tokenAt tok_identifier 74 1;
   tokenAt tok_coloncolon 75 2; tokenAt tok_identifier 77 1;
   tokenAt tok_semi 78 1; tokenAt tok_kw_void 80 4;
   tokenAt tok_identifier 85 1; tokenAt tok_l_paren 86 1;
   tokenAt tok_r_paren 87 1; tokenAt tok_l_brace 89 1;
   tokenAt tok_identifier 91 1; tokenAt tok_coloncolon 92 2;
   tokenAt tok_identifier 94 1; tokenAt tok_identifier 96 1;
   tokenAt tok_semi 97 1; tokenAt tok_r_brace 99 1;
   tokenAt tok_r_brace 101 1; tokenAt tok_semi 102 1].

Definition UsingBf : UsingDecl :=
  mkUsing (at_ 68) (at_ 77) (mkNNS [mkSegment "B" EntType]) "f" ctxD.

Definition TopLevel : list Decl :=
  [DOther TranslationUnit (at_ 0) [DOther ctxB (at_ 11) []];
   DOther TranslationUnit (at_ 24) [DOther ctxA (at_ 38) []];
   DOther TranslationUnit (at_ 53)
     [DUsing UsingBf; DOther ctxD (at_ 80) [DOther ctxH (at_ 91) []]]].

Definition Qualifier : NestedNameSpecifierLoc :=
  mkNNSLoc (Some (mkNNS [namespaceSegment "a" nsA])) (at_ 91) (at_ 92).

Definition TypeNode : Node :=
  mkNode (ASTTypeLoc (mkTypeLoc (Some (mkElaboratedTypeLoc Qualifier "S"))))
         (Some (mkNode ASTOther None ctxH)) ctxH.

Definition Inputs : Selection := {|
  AST := fileOf Tokens TopLevel;
  Cursor := at_ 94;
  commonAncestor := Some TypeNode
|}.

End Member.

(** [namespace a { void f(); } namespace n { void h() { a::f(); } }]
    with the cursor on [f] of the call, and a token buffer in which the
    opening brace of [namespace n] is missing. *)
Module NoBrace.

Definition nsA : NamespaceDecl :=
  mkNamespace 1 ["a"] (mkRange (at_ 0) (at_ 24)).
Definition nsN : NamespaceDecl :=
  mkNamespace 2 ["n"] (mkRange (at_ 26) (at_ 36)).

Definition ctxA : DeclContext := NamespaceContext nsA TranslationUnit.
Definition ctxN : DeclContext := NamespaceContext nsN TranslationUnit.
Definition ctxH : DeclContext := OtherContext 1 ctxN.

Definition Tokens : list Token :=
  [tokenAt tok_kw_namespace 0 9; tokenAt tok_identifier 10 1;
   tokenAt tok_l_brace 12 1; tokenAt tok_kw_void 14 4;
   tokenAt tok_identifier 19 1; tokenAt tok_l_paren 20 1;
   tokenAt tok_r_paren 21 1; tokenAt tok_semi 22 1;
   tokenAt tok_r_brace 24 1; tokenAt tok_kw_namespace 26 9;
   tokenAt tok_identifier 36 1; tokenAt tok_kw_void 40 4;
   tokenAt tok_identifier 45 1; tokenAt tok_l_paren 46 1;
   tokenAt tok_r_paren 47 1; tokenAt tok_l_brace 49 1;
   tokenAt tok_identifier 51 1; tokenAt tok_coloncolon 52 2;
   tokenAt tok_identifier 54 1; tokenAt tok_l_paren 55 1;
   tokenAt tok_r_paren 56 1; tokenAt tok_semi 57 1;
   tokenAt tok_r_brace 59 1; tokenAt tok_r_brace 61 1].

Definition TopLevel : list Decl :=
  [DOther TranslationUnit (at_ 0) [DOther ctxA (at_ 14) []];
   DOther TranslationUnit (at_ 26) [DOther ctxN (at_ 40) []]].

Definition Qualifier : NestedNameSpecifierLoc :=
  mkNNSLoc (Some (mkNNS [namespaceSegment "a" nsA])) (at_ 51) (at_ 52).

Definition RefNode : Node :=
  mkNode (ASTDeclRefExpr (mkDeclRefExpr Qualifier "f"))
         (Some (mkNode ASTOther None ctxH)) ctxH.

Definition Inputs : Selection := {|
  AST := fileOf Tokens TopLevel;
  Cursor := at_ 54;
  commonAncestor := Some RefNode
|}.

End NoBrace.

(** The header [a.h] is [namespace a { void f(); } using a::f;] and the main
    file is [#include "a.h"] followed by [void h() { a::f(); }], with the
    cursor on [f] of the call.  Offsets of the main file are encoded from 1,
    offsets of the header from 1001; in the translation unit the header
    stands where the directive that includes it is. *)
Module Header.

Definition inHeader (Offset : Z) : SourceLocation := mkLoc (Offset + 1001).

Definition fileIDOf (L : SourceLocation) : FileID :=
  if isValid L then (if ID L <? 1001 then 1 else 2) else 0.

Definition positionInTU (L : SourceLocation) : Z :=
  if ID L <? 1001 then ID L * 1000 else ID L.

Definition SM : SourceManager := {|
  getFileID := fileIDOf;
  getMainFileID := 1;
  isBeforeInTranslationUnit := fun A B => positionInTU A <? positionInTU B;
  getLocKind := fun _ => FileLoc;
  isWrittenInSameFile := fun A B => fileIDOf A =? fileIDOf B;
  getExpansionLoc := fun L => L;
  getDecomposedLoc := fun L =>
    (fileIDOf L, if ID L <? 1001 then ID L - 1 else ID L - 1001)
|}.

Definition nsA : NamespaceDecl :=
  mkNamespace 1 ["a"] (mkRange (inHeader 0) (inHeader 24)).

Definition ctxA : DeclContext := NamespaceContext nsA TranslationUnit.
Definition ctxH : DeclContext := OtherContext 1 TranslationUnit.

Definition Tokens : list Token :=
  [tokenAt tok_kw_void 15 4; tokenAt tok_identifier 20 1;
   tokenAt tok_l_paren 21 1; tokenAt tok_r_paren 22 1;
   tokenAt tok_l_brace 24 1; tokenAt tok_identifier 26 1;
   tokenAt tok_coloncolon 27 2; tokenAt tok_identifier 29 1;
   tokenAt tok_l_paren 30 1; tokenAt tok_r_paren 31 1;
   tokenAt tok_semi 32 1; tokenAt tok_r_brace 34 1].

Definition UsingF : UsingDecl :=
  mkUsing (inHeader 26) (inHeader 35) (mkNNS [namespaceSegment "a" nsA]) "f"
          TranslationUnit.

Definition FunctionH : Decl := DOther TranslationUnit (at_ 15) [].

Definition Qualifier : NestedNameSpecifierLoc :=
  mkNNSLoc (Some (mkNNS [namespaceSegment "a" nsA])) (at_ 26) (at_ 27).

Definition RefNode : Node :=
  mkNode (ASTDeclRefExpr (mkDeclRefExpr Qualifier "f"))
         (Some (mkNode ASTOther None ctxH)) ctxH.

Definition Inputs : Selection := {|
  AST := {|
    getSourceManager := SM;
    getTokens := tokensOf Tokens;
    getTraversalScope :=
      [DOther TranslationUnit (inHeader 0) [DOther ctxA (inHeader 14) []];
       DUsing UsingF;
       FunctionH];
    getLocalTopLevelDecls := [FunctionH]
  |};
  Cursor := at_ 29;
  commonAncestor := Some RefNode
|}.

End Header.

(** [#define M(x) x] and [M(a::f)();] inside [void h()]: the qualifier is an
    argument of the macro [M].  Locations with the top bit set come from the
    expansion of [M]; the next bit tells the body of the macro from its
    argument. *)
Module MacroArg.

Definition SM : SourceManager := {|
  getFileID := fun L =>
    if isValid L then (if isMacroID L then 2 else 1) else 0;
  getMainFileID := 1;
  isBeforeInTranslationUnit := fun A B => ID A <? ID B;
  getLocKind := fun L =>
    if isMacroID L then
      (if Z.testbit (ID L) 30 then MacroBodyExpansion else MacroArgExpansion)
    else FileLoc;
  isWrittenInSameFile := fun _ _ => true;
  getExpansionLoc := fun L => L;
  getDecomposedLoc := fun L => (1, ID L mod 2 ^ 30 - 1)
|}.

Definition nsA : NamespaceDecl :=
  mkNamespace 1 ["a"] (mkRange (at_ 15) (at_ 39)).

Definition ctxH : DeclContext := OtherContext 1 TranslationUnit.

Definition inArgument (Offset : Z) : SourceLocation :=
  mkLoc (2 ^ 31 + Offset + 1).
Definition inBody (Offset : Z) : SourceLocation :=
  mkLoc (2 ^ 31 + 2 ^ 30 + Offset + 1).

Definition Qualifier : NestedNameSpecifierLoc :=
  mkNNSLoc (Some (mkNNS [namespaceSegment "a" nsA]))
           (inArgument 54) (inArgument 55).

Definition RefNode : Node :=
  mkNode (ASTDeclRefExpr (mkDeclRefExpr Qualifier "f"))
         (Some (mkNode ASTOther None ctxH)) ctxH.

Definition Inputs : Selection := {|
  AST := {|
    getSourceManager := SM;
    getTokens := tokensOf [];
    getTraversalScope := [];
    getLocalTopLevelDecls := []
  |};
  Cursor := at_ 57;
  commonAncestor := Some RefNode
|}.

End MacroArg.

(** [namespace a { void f(); } namespace n { void h() { a::f(); } }]
    with the cursor on [f] of the call. *)
Module InNamespace.

Definition nsA : NamespaceDecl :=
  mkNamespace 1 ["a"] (mkRange (at_ 0) (at_ 24)).
Definition nsN : NamespaceDecl :=
  mkNamespace 2 ["n"] (mkRange (at_ 26) (at_ 61)).

Definition ctxA : DeclContext := NamespaceContext nsA TranslationUnit.
Definition ctxN : DeclContext := NamespaceContext nsN TranslationUnit.
Definition ctxH : DeclContext := OtherContext 1 ctxN.

Definition Tokens : list Token :=
  [tokenAt tok_kw_namespace 0 9; tokenAt tok_identifier 10 1;
   tokenAt tok_l_brace 12 1; tokenAt tok_kw_void 14 4;
   tokenAt tok_identifier 19 1; tokenAt tok_l_paren 20 1;
   tokenAt tok_r_paren 21 1; tokenAt tok_semi 22 1;
   tokenAt tok_r_brace 24 1; tokenAt tok_kw_namespace 26 9;
   tokenAt tok_identifier 36 1; tokenAt tok_l_brace 38 1;
   tokenAt tok_kw_void 40 4; tokenAt tok_identifier 45 1;
   tokenAt tok_l_paren 46 1; tokenAt tok_r_paren 47 1;
   tokenAt tok_l_brace 49 1; tokenAt tok_identifier 51 1;
   tokenAt tok_coloncolon 52 2; tokenAt tok_identifier 54 1;
   tokenAt tok_l_paren 55 1; tokenAt tok_r_paren 56 1;
   tokenAt tok_semi 57 1; tokenAt tok_r_brace 59 1;
   tokenAt tok_r_brace 61 1].

Definition TopLevel : list Decl :=
  [DOther TranslationUnit (at_ 0) [DOther ctxA (at_ 14) []];
   DOther TranslationUnit (at_ 26) [DOther ctxN (at_ 40) []]].

Definition Qualifier : NestedNameSpecifierLoc :=
  mkNNSLoc (Some (mkNNS [namespaceSegment "a" nsA])) (at_ 51) (at_ 52).

Definition RefNode : Node :=
  mkNode (ASTDeclRefExpr (mkDeclRefExpr Qualifier "f"))
         (Some (mkNode ASTOther None ctxH)) ctxH.

Definition Inputs : Selection := {|
  AST := fileOf Tokens TopLevel;
  Cursor := at_ 54;
  commonAncestor := Some RefNode
|}.

End InNamespace.

(** The main file is
    [namespace a { void f(); } using a::f; void h() {], then a line with
    [#include "q.inc"], then [f(); }], and the included file [q.inc] holds
    the two tokens [a::]; the cursor is on [f] of the call.  Offsets of the
    main file are encoded from 1, offsets of [q.inc] from 1001; in the
    translation unit [q.inc] stands at the directive, offset 49 of the main
    file. *)
Module SplitInclude.

Definition inInclude (Offset : Z) : SourceLocation := mkLoc (Offset + 1001).

Definition fileIDOf (L : SourceLocation) : FileID :=
  if isValid L then (if ID L <? 1001 then 1 else 2) else 0.

Definition positionInTU (L : SourceLocation) : Z :=
  if ID L <? 1001 then ID L * 1000 else 50 * 1000 + (ID L - 1000).

Definition SM : SourceManager := {|
  getFileID := fileIDOf;
  getMainFileID := 1;
  isBeforeInTranslationUnit := fun A B => positionInTU A <? positionInTU B;
  getLocKind := fun _ => FileLoc;
  isWrittenInSameFile := fun A B => fileIDOf A =? fileIDOf B;
  getExpansionLoc := fun L => L;
  getDecomposedLoc := fun L =>
    (fileIDOf L, if ID L <? 1001 then ID L - 1 else ID L - 1001)
|}.

Definition nsA : NamespaceDecl :=
  mkNamespace 1 ["a"] (mkRange (at_ 0) (at_ 24)).

Definition ctxA : DeclContext := NamespaceContext nsA TranslationUnit.
Definition ctxH : DeclContext := OtherContext 1 TranslationUnit.

Definition Tokens : list Token :=
  [tokenAt tok_kw_namespace 0 9; tokenAt tok_identifier 10 1;
   tokenAt tok_l_brace 12 1; tokenAt tok_kw_void 14 4;
   tokenAt tok_identifier 19 1; tokenAt tok_l_paren 20 1;
   tokenAt tok_r_paren 21 1; tokenAt tok_semi 22 1;
   tokenAt tok_r_brace 24 1; tokenAt tok_kw_using 26 5;
   tokenAt tok_identifier 32 1; tokenAt tok_coloncolon 33 2;
   tokenAt tok_identifier 35 1; tokenAt tok_semi 36 1;
   tokenAt tok_kw_void 38 4; tokenAt tok_identifier 43 1;
   tokenAt tok_l_paren 44 1; tokenAt tok_r_paren 45 1;
   tokenAt tok_l_brace 47 1;
   mkToken tok_identifier (inInclude 0) 1;
   mkToken tok_coloncolon (inInclude 1) 2;
   tokenAt tok_identifier 66 1; tokenAt tok_l_paren 67 1;
   tokenAt tok_r_paren 68 1; tokenAt tok_semi 69 1;
   tokenAt tok_r_brace 71 1].

Definition UsingF : UsingDecl :=
  mkUsing (at_ 26) (at_ 35) (mkNNS [namespaceSegment "a" nsA]) "f"
          TranslationUnit.

Definition TopLevel : list Decl :=
  [DOther TranslationUnit (at_ 0) [DOther ctxA (at_ 14) []];
   DUsing UsingF;
   DOther TranslationUnit (at_ 38) []].

Definition Qualifier : NestedNameSpecifierLoc :=
  mkNNSLoc (Some (mkNNS [namespaceSegment "a" nsA]))
           (inInclude 0) (inInclude 1).

Definition RefNode : Node :=
  mkNode (ASTDeclRefExpr (mkDeclRefExpr Qualifier "f"))
         (Some (mkNode ASTOther None ctxH)) ctxH.

Definition Inputs : Selection := {|
  AST := {|
    getSourceManager := SM;
    getTokens := tokensOf Tokens;
    getTraversalScope := TopLevel;
    getLocalTopLevelDecls := TopLevel
  |};
  Cursor := at_ 66;
  commonAncestor := Some RefNode
|}.

End SplitInclude.

(** ** Vocabulary of the properties *)

(** The cursor is not before the declaration, so the loop of
    [findInsertionPoint] looks at it. *)
Definition atOrBeforeCursor (SM : SourceManager) (Cursor : SourceLocation)
  (U : UsingDecl) : bool :=
  negb (isBeforeInTranslationUnit SM Cursor (getUsingLoc U)).

Definition hasNamespaceQualifier (U : UsingDecl) : bool :=
  match getAsNamespace (getQualifier U) with
  | Some _ => true
  | None => false
  end.

(** The declaration binds [Name] of the namespace [QN]. *)
Definition bindsSame (QN : NamespaceDecl) (Name : string) (U : UsingDecl)
  : bool :=
  match getAsNamespace (getQualifier U) with
  | Some UN =>
      (getCanonicalDecl UN =? getCanonicalDecl QN)
      && (getName U =? Name)%string
  | None => false
  end.

(** A using-declaration for something else in a namespace. *)
Definition bindsOther (QN : NamespaceDecl) (Name : string) (U : UsingDecl)
  : bool :=
  hasNamespaceQualifier U && negb (bindsSame QN Name U).

(** The location is past the end of the declaration. *)
Definition pastTheEndOf (SM : SourceManager) (U : UsingDecl)
  (L : SourceLocation) : bool :=
  isBeforeInTranslationUnit SM (getUsingEndLoc U) L.

(** The using-declarations the scanner hands to [findInsertionPoint]. *)
Definition collectedUsings (Inputs : Selection) (Ancestor : Node)
  : list UsingDecl :=
  TraverseAST (Node_getDeclContext Ancestor)
              (getSourceManager (AST Inputs)) (AST Inputs).

(** The spelled tokens of the qualifier, when it has some. *)
Definition qualifierTokens (Inputs : Selection) (This : AddUsing)
  : option (list Token) :=
  let TB := getTokens (AST Inputs) in
  spelledForExpanded TB
    (expandedTokens TB (getQualifierRange (QualifierToRemove This))).

(** The edit that removes the qualifier spelled from [First] to [Last]. *)
Definition qualifierDeletion (SM : SourceManager) (First Last : Token)
  : Replacement :=
  mkReplacement SM (location First) (Token_range_length SM First Last) "".

(** The text of the new using-declaration. *)
Definition usingText (ND : NamespaceDecl) (Name Suffix : string) : string :=
  "using " ++ printPath (getQualifiedPath ND) ++ Name ++ ";" ++ Suffix.

Definition isNamespaceSegment (Seg : Segment) : bool :=
  match entity Seg with
  | EntNamespace _ => true
  | _ => false
  end.

(** What the validator promises about an accepted candidate. *)
Definition namespaceChain (This : AddUsing) : Prop :=
  exists NNS,
    getNestedNameSpecifier (QualifierToRemove This) = Some NNS
    /\ segments NNS <> []
    /\ forallb isNamespaceSegment (segments NNS) = true
    /\ Name This <> "".

(** What the scanner guarantees about a declaration it collects: it is
    written in the main file, in a context that encloses the selection. *)
Definition relevantUsing (Sel : DeclContext) (SM : SourceManager)
  (U : UsingDecl) : Prop :=
  getFileID SM (getUsingLoc U) = getMainFileID SM
  /\ Encloses (getUsingDeclContext U) Sel = true.

Fixpoint noOverlap (R : Replacements) : bool :=
  match R with
  | [] => true
  | A :: Rest => forallb (fun B => negb (overlapsWith A B)) Rest
                 && noOverlap Rest
  end.

(** The node and the nodes above it, nearest first. *)
Fixpoint ancestors (N : Node) : list Node :=
  match N with
  | mkNode _ None _ => [N]
  | mkNode _ (Some P) _ => N :: ancestors P
  end.

(** The kinds of node the loop of [prepare] can walk past: a nested name
    specifier, and a type that is not an elaborated type. *)
Definition passedOver (N : Node) : bool :=
  match ASTNode N with
  | ASTNestedNameSpecifierLoc => true
  | ASTTypeLoc T =>
      match getAsElaboratedTypeLoc T with
      | Some _ => false
      | None => true
      end
  | _ => false
  end.

(** The "main" nodes of [prepare]: a DeclRefExpr or an ElaboratedTypeLoc. *)
Definition isReferenceNode (N : Node) : bool :=
  match ASTNode N with
  | ASTDeclRefExpr _ => true
  | ASTTypeLoc T =>
      match getAsElaboratedTypeLoc T with
      | Some _ => true
      | None => false
      end
  | _ => false
  end.

(** The traversal gets from [D] to the using-declaration [U]: [U] is [D] or
    lies below [D], and the context of every declaration on the way, [U]
    included, encloses the selection. *)
Inductive reaches (Sel : DeclContext) : Decl -> UsingDecl -> Prop :=
| reaches_using (U : UsingDecl) :
    Encloses (getUsingDeclContext U) Sel = true ->
    reaches Sel (DUsing U) U
| reaches_child (Context : DeclContext) (BeginLoc : SourceLocation)
    (Children : list Decl) (C : Decl) (U : UsingDecl) :
    Encloses Context Sel = true ->
    In C Children ->
    reaches Sel C U ->
    reaches Sel (DOther Context BeginLoc Children) U.

(** * Properties *)

(** ** The loop over the using-declarations *)

Section ScanUsings.

Variable SM : SourceManager.
Variable Cursor : SourceLocation.
Variable Q : NestedNameSpecifierLoc.
Variable Name : string.
Variable QN : NamespaceDecl.
Hypothesis Q_namespace : namespaceOf Q = Some QN.

Lemma scanUsings_step_other (U : UsingDecl) (Rest : list UsingDecl)
  (L : SourceLocation) :
  atOrBeforeCursor SM Cursor U = true ->
  bindsOther QN Name U = true ->
  scanUsings SM Cursor Q Name (U :: Rest) L
  = scanUsings SM Cursor Q Name Rest (getUsingLoc U).
Proof.
  unfold atOrBeforeCursor, bindsOther, hasNamespaceQualifier, bindsSame.
  intros Hcur Hother. simpl.
  apply negb_true_iff in Hcur. rewrite Hcur, Q_namespace.
  destruct (getAsNamespace (getQualifier U)) as [UN|]; [|discriminate].
  simpl in Hother. apply negb_true_iff in Hother.
  now rewrite Hother.
Qed.

Lemma scanUsings_step_same (U : UsingDecl) (Rest : list UsingDecl)
  (L : SourceLocation) :
  atOrBeforeCursor SM Cursor U = true ->
  bindsSame QN Name U = true ->
  scanUsings SM Cursor Q Name (U :: Rest) L
  = Success (Returned emptyInsertionPointData).
Proof.
  unfold atOrBeforeCursor, bindsSame. intros Hcur Hsame. simpl.
  apply negb_true_iff in Hcur. rewrite Hcur, Q_namespace.
  destruct (getAsNamespace (getQualifier U)) as [UN|]; [|discriminate].
  now rewrite Hsame.
Qed.

(** The loop walks through a run of declarations for other names and
    remembers the location of the last one. *)
Lemma scanUsings_others (Prior Rest : list UsingDecl) :
  forall L,
    forallb (atOrBeforeCursor SM Cursor) Prior = true ->
    forallb (bindsOther QN Name) Prior = true ->
    scanUsings SM Cursor Q Name (Prior ++ Rest)%list L
    = scanUsings SM Cursor Q Name Rest
        (fold_left (fun _ U => getUsingLoc U) Prior L).
Proof.
  induction Prior as [|U Prior IH]; intros L Hcur Hother.
  - reflexivity.
  - cbn [forallb] in Hcur, Hother.
    apply andb_true_iff in Hcur as [HcurU Hcur].
    apply andb_true_iff in Hother as [HotherU Hother].
    cbn [app fold_left].
    rewrite scanUsings_step_other by assumption.
    now apply IH.
Qed.

(** A duplicate ends the loop, whatever namespace-qualified declarations
    come before it. *)
Lemma scanUsings_duplicate (Prior : list UsingDecl) (U : UsingDecl)
  (Later : list UsingDecl) :
  forall L,
    forallb (atOrBeforeCursor SM Cursor) Prior = true ->
    forallb hasNamespaceQualifier Prior = true ->
    atOrBeforeCursor SM Cursor U = true ->
    bindsSame QN Name U = true ->
    scanUsings SM Cursor Q Name (Prior ++ U :: Later)%list L
    = Success (Returned emptyInsertionPointData).
Proof.
  induction Prior as [|V Prior IH]; intros L Hcur Hns HcurU Hsame.
  - now apply scanUsings_step_same.
  - cbn [forallb] in Hcur, Hns.
    apply andb_true_iff in Hcur as [HcurV Hcur].
    apply andb_true_iff in Hns as [HnsV Hns].
    cbn [app].
    destruct (bindsSame QN Name V) eqn:HV.
    + now apply scanUsings_step_same.
    + rewrite scanUsings_step_other; [now apply IH | assumption |].
      unfold bindsOther. now rewrite HnsV, HV.
Qed.

Lemma scanUsings_stop (Rest : list UsingDecl) (L : SourceLocation) :
  match Rest with
  | [] => True
  | V :: _ => atOrBeforeCursor SM Cursor V = false
  end ->
  scanUsings SM Cursor Q Name Rest L = Success (Finished L).
Proof.
  destruct Rest as [|V Rest]; [reflexivity|].
  unfold atOrBeforeCursor. intros H. apply negb_false_iff in H.
  simpl. now rewrite H.
Qed.

End ScanUsings.

Lemma fold_left_last_loc (Prior : list UsingDecl) (U : UsingDecl)
  (L : SourceLocation) :
  fold_left (fun _ V => getUsingLoc V) (Prior ++ [U])%list L = getUsingLoc U.
Proof.
  now rewrite fold_left_app.
Qed.

(** C1, as the spec states it, fails on
    [namespace a { void f(); void g(); } using a::g; void h() { a::f(); }]:
    the scanner finds the using-declaration of [a::g], which is strictly
    before the cursor and no duplicate, and the insertion point is the
    [using] keyword of that declaration (offset 36), a location that is not
    past the declaration's end; [apply] puts [using a::f;] there, in front
    of [using a::g;]. *)
Lemma C1_counterexample :
  collectedUsings Anchor.Inputs Anchor.RefNode = [Anchor.UsingG]
  /\ isBeforeInTranslationUnit oneFileSM (getUsingLoc Anchor.UsingG)
                               (Cursor Anchor.Inputs) = true
  /\ bindsOther Anchor.nsA "f" Anchor.UsingG = true
  /\ findInsertionPoint Anchor.Inputs Anchor.Qualifier "f"
     = Success (mkInsertionPointData (getUsingLoc Anchor.UsingG) "")
  /\ pastTheEndOf oneFileSM Anchor.UsingG (getUsingLoc Anchor.UsingG) = false
  /\ apply Anchor.Inputs (snd (prepare Anchor.Inputs newAddUsing))
     = Success (mainFileEdit oneFileSM
                  [mkRawReplacement 1 36 0 "using a::f;";
                   mkRawReplacement 1 59 3 ""]).
Proof.
  repeat split; reflexivity.
Qed.

(** C1, amended: when the using-declarations the loop looks at (those the
    scanner collected up to the first one the cursor is before) are all for
    other names of namespaces and there is at least one, the insertion point
    is the location of the [using] keyword of the last of them, so the new
    declaration goes immediately before it, and the suffix is empty. *)
Theorem C1_insertion_at_last_prior_using
  (Inputs : Selection) (Q : NestedNameSpecifierLoc) (Name : string)
  (Ancestor : Node) (QN : NamespaceDecl)
  (Prior : list UsingDecl) (U : UsingDecl) (Later : list UsingDecl) :
  let SM := getSourceManager (AST Inputs) in
  commonAncestor Inputs = Some Ancestor ->
  namespaceOf Q = Some QN ->
  collectedUsings Inputs Ancestor = (Prior ++ [U] ++ Later)%list ->
  forallb (atOrBeforeCursor SM (Cursor Inputs)) (Prior ++ [U]) = true ->
  forallb (bindsOther QN Name) (Prior ++ [U]) = true ->
  existsb (atOrBeforeCursor SM (Cursor Inputs)) (firstn 1 Later) = false ->
  isValid (getUsingLoc U) = true ->
  findInsertionPoint Inputs Q Name
  = Success (mkInsertionPointData (getUsingLoc U) "").
Proof.
  intros SM HA HQ Hcoll Hcur Hother Hlater Hvalid.
  unfold findInsertionPoint. rewrite HA. fold SM.
  unfold collectedUsings in Hcoll. fold SM in Hcoll. rewrite Hcoll.
  rewrite app_assoc.
  rewrite (scanUsings_others SM (Cursor Inputs) Q Name QN HQ) by assumption.
  rewrite fold_left_last_loc.
  rewrite scanUsings_stop.
  - cbn [bind]. now rewrite Hvalid.
  - destruct Later as [|V Later]; [exact I|].
    cbn in Hlater. now rewrite orb_false_r in Hlater.
Qed.

(** C1, amended, on the file of [Anchor]. *)
Lemma C1_witness :
  findInsertionPoint Anchor.Inputs Anchor.Qualifier "f"
  = Success (mkInsertionPointData (at_ 36) "").
Proof.
  apply (C1_insertion_at_last_prior_using
           Anchor.Inputs Anchor.Qualifier "f" Anchor.RefNode Anchor.nsA
           [] Anchor.UsingG []); reflexivity.
Defined.

(** ** The example scenario *)

(** C2, as the spec states it, fails: on
    [namespace a { namespace b { void f(); } } void g() { a::b::f(); }]
    the tweak is offered and applies, and the edits it produces do not
    contain the insertion of [using a::b::f;] plus one newline after the
    opening brace of [namespace b]. *)
Lemma C2_counterexample :
  exists R,
    apply Nested.Inputs (snd (prepare Nested.Inputs newAddUsing))
    = Success (mainFileEdit oneFileSM R)
    /\ In Nested.Deletion R
    /\ ~ In Nested.ExpectedInsertion R.
Proof.
  eexists. split; [reflexivity|]. split.
  - right. left. reflexivity.
  - intros [H|[H|[]]]; discriminate H.
Qed.

(** C2, amended: on that source the selection sits in the function [g],
    which no namespace encloses, and no using-declaration exists, so the
    tweak deletes [a::b::] (6 characters at offset 53) and inserts
    [using a::b::f;] followed by two newlines before the first top-level
    declaration, at offset 0. *)
Theorem C2_nested_example :
  fst (prepare Nested.Inputs newAddUsing) = true
  /\ apply Nested.Inputs (snd (prepare Nested.Inputs newAddUsing))
     = Success (mainFileEdit oneFileSM
                  [mkRawReplacement 1 0 0
                     ("using a::b::f;" ++ newline ++ newline);
                   Nested.Deletion]).
Proof.
  split; reflexivity.
Qed.

(** ** The namespace level *)

(** C4, as the spec states it, fails: in
    [namespace a { void f(); } namespace n { void h() { a::f(); } }] with a
    token buffer that has no opening brace for [namespace n], there is no
    using-declaration at all, the selection has an enclosing namespace, a
    top-level declaration exists to fall back to, and yet
    [findInsertionPoint] fails. *)
Lemma C4_counterexample :
  collectedUsings NoBrace.Inputs NoBrace.RefNode = []
  /\ dyn_cast_NamespaceDecl
       (getEnclosingNamespaceContext (Node_getDeclContext NoBrace.RefNode))
     = Some NoBrace.nsN
  /\ find (fun Tok => is_l_brace (kind Tok))
          (expandedTokens (getTokens (AST NoBrace.Inputs))
                          (getSourceRange NoBrace.nsN)) = None
  /\ aboveFirstTopLevelDecl oneFileSM (AST NoBrace.Inputs)
     = Success (mkInsertionPointData (at_ 0) (newline ++ newline))
  /\ findInsertionPoint NoBrace.Inputs NoBrace.Qualifier "f"
     = Failure msgNamespaceWithNoBrace.
Proof.
  repeat split; reflexivity.
Qed.

(** C4, amended: with no duplicate and no prior using-declaration, when the
    selection has an enclosing namespace whose opening brace is not among
    the namespace's tokens, or ends at an invalid location,
    [findInsertionPoint] fails with "Namespace with no {"; it goes on to
    the first top-level declaration only when the brace ends at a location
    that comes from a macro expansion. *)
Theorem C4_namespace_without_brace
  (Inputs : Selection) (Q : NestedNameSpecifierLoc) (Name : string)
  (Ancestor : Node) (LastUsingLoc : SourceLocation) (ND : NamespaceDecl) :
  let SM := getSourceManager (AST Inputs) in
  let Brace := find (fun Tok => is_l_brace (kind Tok))
                 (expandedTokens (getTokens (AST Inputs)) (getSourceRange ND)) in
  commonAncestor Inputs = Some Ancestor ->
  scanUsings SM (Cursor Inputs) Q Name (collectedUsings Inputs Ancestor) NoLoc
  = Success (Finished LastUsingLoc) ->
  isValid LastUsingLoc = false ->
  dyn_cast_NamespaceDecl
    (getEnclosingNamespaceContext (Node_getDeclContext Ancestor)) = Some ND ->
  match Brace with
  | None => findInsertionPoint Inputs Q Name = Failure msgNamespaceWithNoBrace
  | Some Tok =>
      if isInvalid (endLocation Tok) then
        findInsertionPoint Inputs Q Name = Failure msgNamespaceWithNoBrace
      else if isMacroID (endLocation Tok) then
        findInsertionPoint Inputs Q Name
        = aboveFirstTopLevelDecl SM (AST Inputs)
      else
        findInsertionPoint Inputs Q Name
        = Success (mkInsertionPointData (endLocation Tok) newline)
  end.
Proof.
  intros SM Brace HA Hscan Hinvalid HND.
  unfold findInsertionPoint. rewrite HA. fold SM.
  unfold collectedUsings in Hscan. fold SM in Hscan. rewrite Hscan.
  cbn [bind]. rewrite Hinvalid, HND. fold Brace.
  destruct Brace as [Tok|]; [|reflexivity].
  destruct (isInvalid (endLocation Tok)); [reflexivity|].
  now destruct (isMacroID (endLocation Tok)).
Qed.

(** C4, amended, on the file of [NoBrace]. *)
Lemma C4_witness :
  findInsertionPoint NoBrace.Inputs NoBrace.Qualifier "f"
  = Failure msgNamespaceWithNoBrace.
Proof.
  apply (C4_namespace_without_brace
           NoBrace.Inputs NoBrace.Qualifier "f" NoBrace.RefNode NoLoc
           NoBrace.nsN); reflexivity.
Defined.

(** ** Replacements *)

Lemma Replacements_add_empty (New : Replacement) :
  Replacements_add [] New = Success [New].
Proof.
  reflexivity.
Qed.

Lemma overlapsWith_sym (A B : Replacement) :
  overlapsWith A B = overlapsWith B A.
Proof.
  unfold overlapsWith. apply andb_comm.
Qed.

Lemma insertOrdered_In (New : Replacement) (R : Replacements) :
  In New (insertOrdered New R).
Proof.
  induction R as [|Old R IH]; simpl.
  - now left.
  - destruct (Replacement_before New Old); simpl; auto.
Qed.

Lemma Replacements_add_In (R R' : Replacements) (New : Replacement) :
  Replacements_add R New = Success R' -> In New R'.
Proof.
  unfold Replacements_add.
  destruct (existsb _ R); [discriminate|].
  destruct (existsb _ R); [discriminate|].
  intros [= <-]. apply insertOrdered_In.
Qed.

Lemma Replacements_add_singleton (Old New : Replacement) (R' : Replacements) :
  Replacements_add [Old] New = Success R' ->
  (List.length R' = 2)%nat /\ noOverlap R' = true.
Proof.
  unfold Replacements_add. cbn [existsb].
  destruct (negb (getFilePath Old =? getFilePath New) || false);
    [discriminate|].
  rewrite orb_false_r.
  destruct (overlapsWith New Old) eqn:Hov; [discriminate|].
  intros [= <-]. cbn [insertOrdered].
  destruct (Replacement_before New Old); split; try reflexivity;
    cbn [noOverlap forallb]; rewrite ?(overlapsWith_sym Old New), Hov;
    reflexivity.
Qed.

(** ** What [prepare] checks *)

Lemma resolveChain_Some (Segs : list Segment) (ND : NamespaceDecl) :
  resolveChain Segs = Some ND ->
  Segs <> [] /\ forallb isNamespaceSegment Segs = true.
Proof.
  induction Segs as [|Seg Rest IH]; [discriminate|].
  intros H. split; [discriminate|].
  cbn [resolveChain] in H. cbn [forallb]. unfold isNamespaceSegment at 1.
  destruct (entity Seg); try discriminate.
  destruct Rest as [|Seg' Rest']; [reflexivity|].
  now apply IH.
Qed.

Lemma resolveChain_namespaces (Segs : list Segment) :
  Segs <> [] ->
  forallb isNamespaceSegment Segs = true ->
  exists ND, resolveChain Segs = Some ND.
Proof.
  induction Segs as [|Seg Rest IH]; [congruence|].
  intros _ H. cbn [forallb] in H. apply andb_true_iff in H as [HSeg HRest].
  unfold isNamespaceSegment in HSeg. cbn [resolveChain].
  destruct (entity Seg) as [ND| | |]; try discriminate.
  destruct Rest as [|Seg' Rest']; [now exists ND|].
  apply IH; [discriminate | assumption].
Qed.

Lemma namespaceChain_checks (This : AddUsing) :
  namespaceChain This ->
  hasQualifier (QualifierToRemove This) = true
  /\ (exists ND, namespaceOf (QualifierToRemove This) = Some ND)
  /\ (Name This =? "")%string = false.
Proof.
  intros (NNS & HNNS & Hne & Hall & Hname).
  unfold hasQualifier, namespaceOf, getAsNamespace. rewrite HNNS.
  repeat split.
  - now apply resolveChain_namespaces.
  - now apply String.eqb_neq.
Qed.

(** The four facts behind the answer "applicable". *)
Lemma prepare_true (Inputs : Selection) (This0 This : AddUsing) :
  prepare Inputs This0 = (true, This) ->
  let SM := getSourceManager (AST Inputs) in
  let Q := QualifierToRemove This in
  (exists ND, namespaceOf Q = Some ND)
  /\ (Name This =? "")%string = false
  /\ isMacroBodyExpansion SM (getBeginLoc Q) = false
  /\ isWrittenInSameFile SM (getBeginLoc Q) (getEndLoc Q) = true.
Proof.
  unfold prepare.
  destruct (commonAncestor Inputs) as [Node0|]; [|discriminate].
  set (This' := setCandidate (walkUp Node0) This0).
  destruct (hasQualifier (QualifierToRemove This')); [|discriminate].
  destruct (namespaceOf (QualifierToRemove This')) as [ND|] eqn:HND;
    [|discriminate].
  destruct (Name This' =? "")%string eqn:Hname; [discriminate|].
  cbn [negb orb].
  destruct (isMacroBodyExpansion _ _) eqn:Hbody; [discriminate|].
  destruct (isWrittenInSameFile _ _ _) eqn:Hsame; [|discriminate].
  cbn [negb orb]. intros [= <-]. cbn zeta.
  rewrite HND, Hname, Hbody, Hsame. eauto.
Qed.

Lemma prepare_state (Inputs : Selection) (This0 This : AddUsing) (b : bool)
  (Node0 : Node) :
  commonAncestor Inputs = Some Node0 ->
  prepare Inputs This0 = (b, This) ->
  This = setCandidate (walkUp Node0) This0.
Proof.
  unfold prepare. intros ->.
  destruct (_ || _ || _); [now intros [= _ <-]|].
  destruct (_ || _); now intros [= _ <-].
Qed.

(** C6: a candidate the validator accepts has a qualifier with at least one
    segment, every segment of which resolves to a namespace, and a name
    that is not empty; a candidate that is not of this form is answered
    "not applicable". *)
Theorem C6_validator_accepts_namespace_chains
  (Inputs : Selection) (This0 This : AddUsing) (b : bool) :
  prepare Inputs This0 = (b, This) ->
  (b = true -> namespaceChain This)
  /\ (~ namespaceChain This -> b = false).
Proof.
  intros Hprep.
  assert (Haccept : b = true -> namespaceChain This).
  { intros ->. destruct (prepare_true _ _ _ Hprep) as ((ND & HND) & Hname & _).
    unfold namespaceOf in HND.
    destruct (getNestedNameSpecifier (QualifierToRemove This)) as [NNS|] eqn:HQ;
      [|discriminate].
    apply resolveChain_Some in HND as [Hne Hall].
    exists NNS. repeat split; try assumption.
    now apply String.eqb_neq. }
  split; [exact Haccept|].
  intros Hnot. destruct b; [|reflexivity].
  now destruct Hnot; apply Haccept.
Qed.

(** C6 on the file of [Nested]. *)
Lemma C6_witness :
  namespaceChain (snd (prepare Nested.Inputs newAddUsing)).
Proof.
  apply (C6_validator_accepts_namespace_chains
           Nested.Inputs newAddUsing _ true); reflexivity.
Defined.

(** C7: [prepare] answers "not applicable" when the qualifier begins inside
    the expansion of a macro body, and when its begin and end are not
    written in the same file; a namespace qualifier with a name that begins
    in a macro argument and is written in one file is accepted. *)
Theorem C7_macro_qualifiers
  (Inputs : Selection) (This0 This : AddUsing) (b : bool) :
  let SM := getSourceManager (AST Inputs) in
  let Q := QualifierToRemove This in
  prepare Inputs This0 = (b, This) ->
  (isMacroBodyExpansion SM (getBeginLoc Q) = true
   \/ isWrittenInSameFile SM (getBeginLoc Q) (getEndLoc Q) = false ->
   b = false)
  /\ (commonAncestor Inputs <> None ->
      namespaceChain This ->
      isMacroArgExpansion SM (getBeginLoc Q) = true ->
      isWrittenInSameFile SM (getBeginLoc Q) (getEndLoc Q) = true ->
      b = true).
Proof.
  intros SM Q Hprep. split.
  - intros Hmacro. destruct b; [|reflexivity].
    destruct (prepare_true _ _ _ Hprep) as (_ & _ & Hbody & Hsame).
    fold SM Q in Hbody, Hsame. destruct Hmacro; congruence.
  - intros Hnode Hchain Harg Hsame.
    destruct (commonAncestor Inputs) as [Node0|] eqn:HA; [|congruence].
    pose proof (prepare_state _ _ _ _ _ HA Hprep) as HThis.
    destruct (namespaceChain_checks _ Hchain) as (HhasQ & (ND & HND) & Hname).
    assert (Hbody : isMacroBodyExpansion SM (getBeginLoc Q) = false).
    { unfold isMacroArgExpansion in Harg. unfold isMacroBodyExpansion.
      now destruct (getLocKind SM (getBeginLoc Q)). }
    unfold prepare in Hprep. rewrite HA in Hprep. cbv zeta in Hprep.
    rewrite <- HThis in Hprep. subst SM Q.
    rewrite HhasQ, HND, Hname, Hbody, Hsame in Hprep.
    cbn in Hprep. congruence.
Qed.

(** C7 on the file of [MacroArg]: the qualifier is a macro argument and the
    tweak is offered. *)
Lemma C7_witness :
  isMacroArgExpansion MacroArg.SM (getBeginLoc MacroArg.Qualifier) = true
  /\ fst (prepare MacroArg.Inputs newAddUsing) = true.
Proof.
  split; [reflexivity|].
  refine (proj2 (C7_macro_qualifiers MacroArg.Inputs newAddUsing
                   (snd (prepare MacroArg.Inputs newAddUsing))
                   (fst (prepare MacroArg.Inputs newAddUsing)) eq_refl)
                _ _ eq_refl eq_refl).
  - discriminate.
  - exists (mkNNS [namespaceSegment "a" MacroArg.nsA]).
    repeat split; discriminate.
Defined.

(** ** The scanner *)

(** [VisitUsingDecl] keeps a using-declaration of the main file whose context
    encloses the selection, whatever its qualifier names. *)
Lemma VisitUsingDecl_keeps (Sel : DeclContext) (SM : SourceManager)
  (D : UsingDecl) (Results : list UsingDecl) :
  getFileID SM (getUsingLoc D) = getMainFileID SM ->
  Encloses (getUsingDeclContext D) Sel = true ->
  VisitUsingDecl Sel SM D Results = (true, (Results ++ [D])%list).
Proof.
  intros Hfile Henc. unfold VisitUsingDecl.
  now rewrite Hfile, Z.eqb_refl, Henc.
Qed.

Lemma Decl_nested_ind (P : Decl -> Prop) :
  (forall U, P (DUsing U)) ->
  (forall Context BeginLoc Children,
      Forall P Children -> P (DOther Context BeginLoc Children)) ->
  forall D, P D.
Proof.
  intros HU HO. fix IH 1. intros [U|Context BeginLoc Children].
  - apply HU.
  - apply HO. induction Children as [|C Children IHC]; constructor.
    + apply IH.
    + exact IHC.
Qed.

Section ScannerSound.

Variable Sel : DeclContext.
Variable SM : SourceManager.

Lemma VisitUsingDecl_sound (D : UsingDecl) (Results : list UsingDecl) :
  Forall (relevantUsing Sel SM) Results ->
  Forall (relevantUsing Sel SM) (snd (VisitUsingDecl Sel SM D Results)).
Proof.
  intros HR. unfold VisitUsingDecl.
  destruct (getFileID SM (getUsingLoc D) =? getMainFileID SM) eqn:Hfile;
    [|exact HR].
  cbn [negb].
  destruct (Encloses (getUsingDeclContext D) Sel) eqn:Henc; [|exact HR].
  cbn [snd]. apply Forall_app. split; [exact HR|].
  constructor; [|constructor]. split; [|exact Henc].
  now apply Z.eqb_eq.
Qed.

Lemma TraverseDecl_sound (D : Decl) :
  forall Results,
    Forall (relevantUsing Sel SM) Results ->
    Forall (relevantUsing Sel SM) (snd (TraverseDecl Sel SM D Results)).
Proof.
  induction D as [U|Context BeginLoc Children IH] using Decl_nested_ind;
    intros Results HR; cbn [TraverseDecl getDeclContext].
  - destruct (Encloses (getUsingDeclContext U) Sel); [|exact HR].
    now apply VisitUsingDecl_sound.
  - destruct (Encloses Context Sel); [|exact HR].
    revert Results HR.
    induction IH as [|C Children HC _ IHCs]; intros Results HR.
    + exact HR.
    + specialize (HC Results HR).
      destruct (TraverseDecl Sel SM C Results) as [Continue R'].
      cbn [snd] in HC. destruct Continue; [|exact HC].
      now apply IHCs.
Qed.

Lemma TraverseDecls_sound (Ds : list Decl) :
  forall Results,
    Forall (relevantUsing Sel SM) Results ->
    Forall (relevantUsing Sel SM) (snd (TraverseDecls Sel SM Ds Results)).
Proof.
  induction Ds as [|D Ds IH]; intros Results HR; cbn [TraverseDecls].
  - exact HR.
  - pose proof (TraverseDecl_sound D Results HR) as HD.
    destruct (TraverseDecl Sel SM D Results) as [Continue R'].
    cbn [snd] in HD. destruct Continue; [|exact HD].
    now apply IH.
Qed.

End ScannerSound.

(** Every using-declaration handed to [findInsertionPoint] is written in the
    main file, in a context that encloses the selection. *)
Lemma collectedUsings_relevant (Inputs : Selection) (Ancestor : Node) :
  Forall (relevantUsing (Node_getDeclContext Ancestor)
                        (getSourceManager (AST Inputs)))
         (collectedUsings Inputs Ancestor).
Proof.
  unfold collectedUsings, TraverseAST. apply TraverseDecls_sound. constructor.
Qed.

(** C9 does not hold of the code: in
    [struct D : B { using B::f; void h() { a::S s; } };] the scanner collects
    [using B::f], whose qualifier names the class [B] and no namespace, and
    the comparison in [findInsertionPoint] then goes through the null
    pointer that [getAsNamespace] returns for it. *)
Theorem C9_member_using_is_collected :
  collectedUsings Member.Inputs Member.TypeNode = [Member.UsingBf]
  /\ getAsNamespace (getQualifier Member.UsingBf) = None
  /\ fst (prepare Member.Inputs newAddUsing) = true
  /\ findInsertionPoint Member.Inputs Member.Qualifier "S"
     = Undefined NullDereference
  /\ apply Member.Inputs (snd (prepare Member.Inputs newAddUsing))
     = Undefined NullDereference.
Proof.
  repeat split; reflexivity.
Qed.

(** ** Duplicates *)

(** C5, as the spec states it, fails.  In
    [namespace a { void f(); } namespace n { using a::f; } void h() { a::f(); }]
    the using-declaration in [namespace n] is strictly before the cursor and
    binds the same name of the same namespace as the candidate, but [n] does
    not enclose the selection and the scanner leaves the declaration out.
    With [using a::f;] at the top level of an included header, the
    declaration encloses the selection but is not written in the main file,
    and the scanner leaves it out as well.  Both times the tweak inserts a
    new [using a::f;]. *)
Lemma C5_counterexample :
  (isBeforeInTranslationUnit oneFileSM (getUsingLoc Sibling.UsingF)
                             (Cursor Sibling.Inputs) = true
   /\ bindsSame Sibling.nsA "f" Sibling.UsingF = true
   /\ collectedUsings Sibling.Inputs Sibling.RefNode = []
   /\ apply Sibling.Inputs (snd (prepare Sibling.Inputs newAddUsing))
      = Success (mainFileEdit oneFileSM
                   [mkRawReplacement 1 0 0
                      ("using a::f;" ++ newline ++ newline);
                    mkRawReplacement 1 65 3 ""]))
  /\ (isBeforeInTranslationUnit Header.SM (getUsingLoc Header.UsingF)
                                (Cursor Header.Inputs) = true
      /\ bindsSame Header.nsA "f" Header.UsingF = true
      /\ Encloses (getUsingDeclContext Header.UsingF)
                  (Node_getDeclContext Header.RefNode) = true
      /\ collectedUsings Header.Inputs Header.RefNode = []
      /\ apply Header.Inputs (snd (prepare Header.Inputs newAddUsing))
         = Success (mainFileEdit Header.SM
                      [mkRawReplacement 1 15 0
                         ("using a::f;" ++ newline ++ newline);
                       mkRawReplacement 1 26 3 ""])).
Proof.
  repeat split; reflexivity.
Qed.

(** C5, amended: when a using-declaration the scanner collected (one of the
    main file, in a context that encloses the selection) binds the same name
    of the same canonical namespace as the candidate, the cursor is before
    neither it nor the collected declarations in front of it, those have
    namespace qualifiers, and the qualifier has spelled tokens, then the
    insertion point is absent and the edits are the deletion of the
    qualifier alone. *)
Theorem C5_duplicate_no_insertion
  (Inputs : Selection) (This : AddUsing) (Ancestor : Node) (QN : NamespaceDecl)
  (Prior : list UsingDecl) (U : UsingDecl) (Later : list UsingDecl)
  (Spelled : list Token) (First Last : Token) :
  let SM := getSourceManager (AST Inputs) in
  commonAncestor Inputs = Some Ancestor ->
  namespaceOf (QualifierToRemove This) = Some QN ->
  collectedUsings Inputs Ancestor = (Prior ++ [U] ++ Later)%list ->
  forallb (atOrBeforeCursor SM (Cursor Inputs)) (Prior ++ [U]) = true ->
  forallb hasNamespaceQualifier Prior = true ->
  bindsSame QN (Name This) U = true ->
  qualifierTokens Inputs This = Some Spelled ->
  front Spelled = Some First ->
  back Spelled = Some Last ->
  findInsertionPoint Inputs (QualifierToRemove This) (Name This)
  = Success emptyInsertionPointData
  /\ apply Inputs This
     = Success (mainFileEdit SM [qualifierDeletion SM First Last]).
Proof.
  intros SM HA HQ Hcoll Hcur Hns Hsame Htoks Hfirst Hlast.
  rewrite forallb_app in Hcur. apply andb_true_iff in Hcur as [Hcur HcurU].
  cbn [forallb] in HcurU. rewrite andb_true_r in HcurU.
  assert (Hfind : findInsertionPoint Inputs (QualifierToRemove This) (Name This)
                  = Success emptyInsertionPointData).
  { unfold findInsertionPoint. rewrite HA. fold SM.
    unfold collectedUsings in Hcoll. fold SM in Hcoll. rewrite Hcoll.
    cbn [app].
    now rewrite (scanUsings_duplicate SM (Cursor Inputs) _ _ QN HQ). }
  split; [exact Hfind|].
  unfold apply. unfold qualifierTokens in Htoks.
  rewrite Htoks, Hfirst, Hlast, Replacements_add_empty. cbn [bind].
  rewrite Hfind. reflexivity.
Qed.

(** C5, amended, on the file of [Dup]. *)
Lemma C5_witness :
  apply Dup.Inputs (snd (prepare Dup.Inputs newAddUsing))
  = Success (mainFileEdit oneFileSM [mkRawReplacement 1 49 3 ""]).
Proof.
  exact (proj2 (C5_duplicate_no_insertion
                  Dup.Inputs (snd (prepare Dup.Inputs newAddUsing))
                  Dup.RefNode Dup.nsA [] Dup.UsingF []
                  [tokenAt tok_identifier 49 1; tokenAt tok_coloncolon 50 2]
                  (tokenAt tok_identifier 49 1) (tokenAt tok_coloncolon 50 2)
                  eq_refl eq_refl eq_refl eq_refl eq_refl eq_refl
                  eq_refl eq_refl eq_refl)).
Defined.

(** ** The edits of [apply] *)

(** The three ways [apply] ends well: the deletion alone when the insertion
    point is absent, otherwise the deletion together with the insertion of
    the using-declaration, at a location of the main file. *)
Lemma apply_Success (Inputs : Selection) (This : AddUsing) (E : Effect) :
  let SM := getSourceManager (AST Inputs) in
  let Q := QualifierToRemove This in
  apply Inputs This = Success E ->
  exists Spelled First Last InsertionPoint,
    qualifierTokens Inputs This = Some Spelled
    /\ front Spelled = Some First
    /\ back Spelled = Some Last
    /\ findInsertionPoint Inputs Q (Name This) = Success InsertionPoint
    /\ ((isValid (Loc InsertionPoint) = false
         /\ E = mainFileEdit SM [qualifierDeletion SM First Last])
        \/ (isValid (Loc InsertionPoint) = true
            /\ exists NNS R,
                getNestedNameSpecifier Q = Some NNS
                /\ getFileID SM (Loc InsertionPoint) = getMainFileID SM
                /\ Replacements_add [qualifierDeletion SM First Last]
                     (mkReplacement SM (Loc InsertionPoint) 0
                        ("using " ++ print NNS ++ Name This ++ ";"
                         ++ Suffix InsertionPoint))
                   = Success R
                /\ E = mainFileEdit SM R)).
Proof.
  intros SM Q. unfold apply, qualifierTokens. fold SM Q.
  destruct (spelledForExpanded _ _) as [Spelled|]; [|discriminate].
  destruct (front Spelled) as [First|] eqn:HF; [|discriminate].
  destruct (back Spelled) as [Last|] eqn:HL; [|discriminate].
  rewrite Replacements_add_empty. cbn [bind].
  destruct (findInsertionPoint Inputs Q (Name This)) as [IP| |];
    [|discriminate|discriminate].
  cbn [bind]. intros H. exists Spelled, First, Last, IP.
  split; [reflexivity|]. split; [exact HF|]. split; [exact HL|].
  split; [reflexivity|].
  destruct (isValid (Loc IP)).
  - right. split; [reflexivity|].
    destruct (getNestedNameSpecifier Q) as [NNS|]; [|discriminate].
    destruct (getFileID SM (Loc IP) =? getMainFileID SM) eqn:Hfile;
      [|discriminate].
    destruct (Replacements_add _ _) as [R| |] eqn:Hadd;
      [|discriminate|discriminate].
    cbn [bind] in H. exists NNS, R. repeat split.
    + now apply Z.eqb_eq.
    + exact Hadd.
    + now injection H as <-.
  - left. split; [reflexivity|]. now injection H as <-.
Qed.

(** C3: when the tweak applies and inserts a using-declaration, the edits
    contain, at the insertion point, the text made of the keyword [using],
    the qualified path of the namespace the candidate's qualifier resolves
    to (a function of that namespace alone, not of how the qualifier is
    written), the name, a semicolon and the suffix of the insertion point. *)
Theorem C3_inserted_text
  (Inputs : Selection) (This0 This : AddUsing) (E : Effect)
  (InsertionPoint : InsertionPointData) :
  let SM := getSourceManager (AST Inputs) in
  prepare Inputs This0 = (true, This) ->
  apply Inputs This = Success E ->
  findInsertionPoint Inputs (QualifierToRemove This) (Name This)
  = Success InsertionPoint ->
  isValid (Loc InsertionPoint) = true ->
  exists ND R,
    namespaceOf (QualifierToRemove This) = Some ND
    /\ E = mainFileEdit SM R
    /\ In (mkReplacement SM (Loc InsertionPoint) 0
             (usingText ND (Name This) (Suffix InsertionPoint))) R.
Proof.
  intros SM Hprep Happly Hfind Hvalid.
  destruct (prepare_true _ _ _ Hprep) as ((ND & HND) & _).
  destruct (apply_Success _ _ _ Happly)
    as (Spelled & First & Last & IP & _ & _ & _ & Hfind' & Hcases).
  rewrite Hfind in Hfind'. injection Hfind' as <-.
  destruct Hcases as [[Hinvalid _]|[_ (NNS & R & HNNS & _ & Hadd & HE)]];
    [congruence|].
  exists ND, R. repeat split; [exact HND | exact HE |].
  apply Replacements_add_In in Hadd.
  unfold namespaceOf in HND. rewrite HNNS in HND.
  unfold print in Hadd. rewrite HND in Hadd. exact Hadd.
Qed.

(** C3 on the file of [Nested]. *)
Lemma C3_witness :
  exists ND R,
    namespaceOf Nested.Qualifier = Some ND
    /\ mainFileEdit oneFileSM
         [mkRawReplacement 1 0 0 ("using a::b::f;" ++ newline ++ newline);
          Nested.Deletion]
       = mainFileEdit oneFileSM R
    /\ In (mkRawReplacement 1 0 0
             (usingText ND "f" (newline ++ newline))) R.
Proof.
  exact (C3_inserted_text
           Nested.Inputs newAddUsing (mkAddUsing Nested.Qualifier "f")
           _ (mkInsertionPointData (at_ 0) (newline ++ newline))
           eq_refl eq_refl eq_refl eq_refl).
Defined.

(** C8 does not hold of the code.  In the file of [SplitInclude] the
    qualifier [a::] of the call is written in the included file [q.inc] and
    the cursor is on [f] in the main file.  [prepare] offers the tweak, since
    begin and end of the qualifier are written in the same file;
    [using a::f;] is already there, so no insertion is added; and [apply]
    ends well with the deletion alone, a replacement whose file is [q.inc]
    (offset 0, length 3), handed out as an edit of the main file. *)
Theorem C8_deletion_outside_main_file :
  fst (prepare SplitInclude.Inputs newAddUsing) = true
  /\ getFileID SplitInclude.SM (Cursor SplitInclude.Inputs)
     = getMainFileID SplitInclude.SM
  /\ getFileID SplitInclude.SM
       (getBeginLoc
          (QualifierToRemove (snd (prepare SplitInclude.Inputs newAddUsing))))
     = 2
  /\ findInsertionPoint SplitInclude.Inputs SplitInclude.Qualifier "f"
     = Success emptyInsertionPointData
  /\ apply SplitInclude.Inputs (snd (prepare SplitInclude.Inputs newAddUsing))
     = Success (mkEffect
                  [(getMainFileID SplitInclude.SM,
                    [mkRawReplacement 2 0 3 ""])])
  /\ getFilePath (mkRawReplacement 2 0 3 "") <> getMainFileID SplitInclude.SM.
Proof.
  repeat split; try reflexivity. discriminate.
Qed.

(** C10: when the qualifier has no spelled tokens, and when the search for
    the insertion point ends in an error, [apply] returns that error and no
    edits, not even the deletion of the qualifier. *)
Theorem C10_apply_fails_without_edits
  (Inputs : Selection) (This : AddUsing) (Msg : string) :
  (qualifierTokens Inputs This = None /\ Msg = msgNoQualifierLength)
  \/ (exists Spelled First Last,
         qualifierTokens Inputs This = Some Spelled
         /\ front Spelled = Some First
         /\ back Spelled = Some Last
         /\ findInsertionPoint Inputs (QualifierToRemove This) (Name This)
            = Failure Msg) ->
  apply Inputs This = Failure Msg
  /\ forall E, apply Inputs This <> Success E.
Proof.
  intros Hfail.
  assert (H : apply Inputs This = Failure Msg).
  { unfold apply. unfold qualifierTokens in Hfail.
    destruct Hfail as [[Htoks ->]|(Spelled & First & Last & Htoks & HF & HL & Hfind)].
    - now rewrite Htoks.
    - rewrite Htoks, HF, HL, Replacements_add_empty. cbn [bind].
      now rewrite Hfind. }
  split; [exact H|]. intros E. rewrite H. discriminate.
Qed.

(** C10 on the files of [NoBrace], where the search for the insertion point
    fails, and of [MacroArg], where the qualifier has no spelled tokens. *)
Lemma C10_witness :
  apply NoBrace.Inputs (mkAddUsing NoBrace.Qualifier "f")
  = Failure msgNamespaceWithNoBrace
  /\ apply MacroArg.Inputs (mkAddUsing MacroArg.Qualifier "f")
     = Failure msgNoQualifierLength.
Proof.
  split.
  - apply (C10_apply_fails_without_edits
             NoBrace.Inputs (mkAddUsing NoBrace.Qualifier "f")).
    right.
    exists [tokenAt tok_identifier 51 1; tokenAt tok_coloncolon 52 2],
           (tokenAt tok_identifier 51 1), (tokenAt tok_coloncolon 52 2).
    repeat split; reflexivity.
  - apply (C10_apply_fails_without_edits
             MacroArg.Inputs (mkAddUsing MacroArg.Qualifier "f")).
    left. split; reflexivity.
Defined.

(** * Further properties of the tweak *)

(** ** The walk to the main node *)

(** X1: the loop of [prepare] ends at the selected node or at one of the
    nodes above it, and every node it walked past on the way is a nested
    name specifier or a type that is not an elaborated type. *)
Theorem X1_walkUp_ancestor (N : Node) :
  exists Passed Above,
    ancestors N = (Passed ++ walkUp N :: Above)%list
    /\ forallb passedOver Passed = true.
Proof.
  revert N. fix IH 1. intros [A [P|] C].
  - assert (Hstay : exists Passed Above,
               ancestors (mkNode A (Some P) C)
               = (Passed ++ mkNode A (Some P) C :: Above)%list
               /\ forallb passedOver Passed = true).
    { exists [], (ancestors P). split; reflexivity. }
    destruct (IH P) as (Passed & Above & Hanc & Hpassed).
    assert (Hup : passedOver (mkNode A (Some P) C) = true ->
                  exists Passed' Above',
                    ancestors (mkNode A (Some P) C)
                    = (Passed' ++ walkUp P :: Above')%list
                    /\ forallb passedOver Passed' = true).
    { intros HA. exists (mkNode A (Some P) C :: Passed), Above. split.
      - cbn [ancestors app]. now rewrite Hanc.
      - cbn [forallb]. now rewrite HA, Hpassed. }
    destruct A as [|T|D|]; cbn [walkUp]; try exact Hstay.
    + now apply Hup.
    + destruct (getAsElaboratedTypeLoc T) eqn:HT; [exact Hstay|].
      destruct (isTypeLoc (ASTNode P) || isNestedNameSpecifierLoc (ASTNode P));
        [|exact Hstay].
      apply Hup. unfold passedOver. cbn [ASTNode]. now rewrite HT.
  - exists [], []. split; reflexivity.
Qed.

(** X2: the node the loop of [prepare] ends at is a fixed point of the loop:
    started there, the loop does not move. *)
Theorem X2_walkUp_idempotent (N : Node) :
  walkUp (walkUp N) = walkUp N.
Proof.
  revert N. fix IH 1. intros [A [P|] C]; [|reflexivity].
  destruct A as [|T|D|]; try reflexivity.
  - cbn [walkUp]. apply IH.
  - cbn [walkUp]. destruct (getAsElaboratedTypeLoc T) eqn:HT.
    + cbn [walkUp]. now rewrite HT.
    + destruct (isTypeLoc (ASTNode P) || isNestedNameSpecifierLoc (ASTNode P))
        eqn:HP.
      * apply IH.
      * cbn [walkUp]. now rewrite HT, HP.
Qed.

(** ** The candidate of [prepare] *)

Lemma setCandidate_reference (N : Node) (This0 This1 : AddUsing) :
  isReferenceNode N = true ->
  setCandidate N This0 = setCandidate N This1.
Proof.
  unfold isReferenceNode, setCandidate.
  destruct (ASTNode N) as [|T|D|]; try discriminate; [|reflexivity].
  now destruct (getAsElaboratedTypeLoc T).
Qed.

Lemma setCandidate_other (N : Node) (This0 : AddUsing) :
  isReferenceNode N = false ->
  setCandidate N This0 = This0.
Proof.
  unfold isReferenceNode, setCandidate.
  destruct (ASTNode N) as [|T|D|]; try discriminate; try reflexivity.
  now destruct (getAsElaboratedTypeLoc T).
Qed.

(** X3: when a freshly constructed tweak is offered, its main node is a
    DeclRefExpr or an ElaboratedTypeLoc, and the qualifier and the name the
    tweak remembers are the ones of that node. *)
Theorem X3_prepare_candidate_of_main_node
  (Inputs : Selection) (This : AddUsing) :
  prepare Inputs newAddUsing = (true, This) ->
  exists Node0,
    commonAncestor Inputs = Some Node0
    /\ ((exists D,
            ASTNode (walkUp Node0) = ASTDeclRefExpr D
            /\ This = mkAddUsing (DeclRefExpr_getQualifierLoc D)
                                 (DeclRefExpr_getDeclName D))
        \/ (exists T E,
               ASTNode (walkUp Node0) = ASTTypeLoc T
               /\ getAsElaboratedTypeLoc T = Some E
               /\ This = mkAddUsing (ElaboratedTypeLoc_getQualifierLoc E)
                                    (ElaboratedTypeLoc_getBaseTypeName E))).
Proof.
  intros Hprep.
  destruct (commonAncestor Inputs) as [Node0|] eqn:HA;
    [|unfold prepare in Hprep; rewrite HA in Hprep; discriminate].
  exists Node0. split; [reflexivity|].
  pose proof (prepare_state _ _ _ _ _ HA Hprep) as HThis.
  destruct (prepare_true _ _ _ Hprep) as ((ND & HND) & _).
  unfold setCandidate in HThis.
  destruct (ASTNode (walkUp Node0)) as [|T|D|] eqn:HN.
  - subst This. discriminate HND.
  - destruct (getAsElaboratedTypeLoc T) as [E|] eqn:HT.
    + right. now exists T, E.
    + subst This. discriminate HND.
  - left. now exists D.
  - subst This. discriminate HND.
Qed.

(** X3 on the file of [Nested]. *)
Lemma X3_witness :
  exists Node0,
    commonAncestor Nested.Inputs = Some Node0
    /\ ((exists D,
            ASTNode (walkUp Node0) = ASTDeclRefExpr D
            /\ mkAddUsing Nested.Qualifier "f"
               = mkAddUsing (DeclRefExpr_getQualifierLoc D)
                            (DeclRefExpr_getDeclName D))
        \/ (exists T E,
               ASTNode (walkUp Node0) = ASTTypeLoc T
               /\ getAsElaboratedTypeLoc T = Some E
               /\ mkAddUsing Nested.Qualifier "f"
                  = mkAddUsing (ElaboratedTypeLoc_getQualifierLoc E)
                               (ElaboratedTypeLoc_getBaseTypeName E))).
Proof.
  exact (X3_prepare_candidate_of_main_node
           Nested.Inputs (mkAddUsing Nested.Qualifier "f") eq_refl).
Defined.

(** X4: when the main node is a DeclRefExpr or an ElaboratedTypeLoc,
    [prepare] overwrites both members, so its answer and the candidate it
    leaves do not depend on what the tweak held before. *)
Theorem X4_prepare_overwrites_members
  (Inputs : Selection) (Node0 : Node) (This0 This1 : AddUsing) :
  commonAncestor Inputs = Some Node0 ->
  isReferenceNode (walkUp Node0) = true ->
  prepare Inputs This0 = prepare Inputs This1.
Proof.
  intros HA Href. unfold prepare. rewrite HA.
  now rewrite (setCandidate_reference _ This0 This1 Href).
Qed.

(** X4 on the file of [Nested], for a tweak that held the candidate of
    [Anchor] before. *)
Lemma X4_witness :
  prepare Nested.Inputs (mkAddUsing Anchor.Qualifier "g")
  = prepare Nested.Inputs newAddUsing.
Proof.
  exact (X4_prepare_overwrites_members
           Nested.Inputs Nested.QualifierNode
           (mkAddUsing Anchor.Qualifier "g") newAddUsing eq_refl eq_refl).
Defined.

(** X5: when nothing is selected, or the main node is neither a DeclRefExpr
    nor an ElaboratedTypeLoc, [prepare] leaves the two members as they
    were; a freshly constructed tweak is then not offered. *)
Theorem X5_prepare_other_node
  (Inputs : Selection) (This0 : AddUsing) :
  match commonAncestor Inputs with
  | None => True
  | Some Node0 => isReferenceNode (walkUp Node0) = false
  end ->
  snd (prepare Inputs This0) = This0
  /\ prepare Inputs newAddUsing = (false, newAddUsing).
Proof.
  intros Hother. unfold prepare.
  destruct (commonAncestor Inputs) as [Node0|]; [|split; reflexivity].
  rewrite !(setCandidate_other _ _ Hother). split; [|reflexivity].
  destruct (_ || _ || _); [reflexivity|].
  now destruct (_ || _).
Qed.

(** X5 for a selection whose only node is a statement. *)
Lemma X5_witness :
  prepare {| AST := AST Nested.Inputs;
             Cursor := at_ 51;
             commonAncestor := Some Nested.CallNode |} newAddUsing
  = (false, newAddUsing).
Proof.
  exact (proj2 (X5_prepare_other_node
                  {| AST := AST Nested.Inputs;
                     Cursor := at_ 51;
                     commonAncestor := Some Nested.CallNode |}
                  newAddUsing eq_refl)).
Defined.

(** ** The loop and the tiers of [findInsertionPoint] *)

(** X6: the loop stops at the first using-declaration the cursor is before;
    that declaration and everything behind it in the vector, duplicates
    included, have no influence on the outcome. *)
Theorem X6_scanUsings_ignores_after_cursor
  (SM : SourceManager) (Cursor : SourceLocation)
  (Q : NestedNameSpecifierLoc) (Name : string)
  (Prior : list UsingDecl) (V : UsingDecl) (Later : list UsingDecl) :
  isBeforeInTranslationUnit SM Cursor (getUsingLoc V) = true ->
  forall L,
    scanUsings SM Cursor Q Name (Prior ++ V :: Later)%list L
    = scanUsings SM Cursor Q Name Prior L.
Proof.
  intros HV. induction Prior as [|U Prior IH]; intros L.
  - cbn [app scanUsings]. now rewrite HV.
  - cbn [app scanUsings].
    destruct (isBeforeInTranslationUnit SM Cursor (getUsingLoc U));
      [reflexivity|].
    destruct (getAsNamespace (getQualifier U)) as [UN|]; [|reflexivity].
    destruct (namespaceOf Q) as [QN|]; [|reflexivity].
    destruct (_ && _); [reflexivity|]. apply IH.
Qed.

(** X6 with a duplicate behind the cursor: the loop does not see it. *)
Lemma X6_witness :
  scanUsings oneFileSM (at_ 10) Dup.Qualifier "f"
             ([] ++ Dup.UsingF :: [Anchor.UsingG])%list NoLoc
  = Success (Finished NoLoc).
Proof.
  exact (X6_scanUsings_ignores_after_cursor
           oneFileSM (at_ 10) Dup.Qualifier "f" [] Dup.UsingF [Anchor.UsingG]
           eq_refl NoLoc).
Defined.

(** How the loop can end well: by [return] only with the empty insertion
    point and because of a duplicate the cursor is not before; otherwise
    with the location it started with or the location of a declaration of
    the vector that the cursor is not before. *)
Lemma scanUsings_Success (SM : SourceManager) (Cursor : SourceLocation)
  (Q : NestedNameSpecifierLoc) (Name : string) (Usings : list UsingDecl) :
  forall L Exit,
    scanUsings SM Cursor Q Name Usings L = Success Exit ->
    match Exit with
    | Returned Out =>
        Out = emptyInsertionPointData
        /\ exists U QN,
             In U Usings
             /\ namespaceOf Q = Some QN
             /\ atOrBeforeCursor SM Cursor U = true
             /\ bindsSame QN Name U = true
    | Finished L' =>
        L' = L
        \/ exists U,
             In U Usings
             /\ atOrBeforeCursor SM Cursor U = true
             /\ L' = getUsingLoc U
    end.
Proof.
  induction Usings as [|U Usings IH]; intros L Exit; cbn [scanUsings].
  - intros [= <-]. now left.
  - destruct (isBeforeInTranslationUnit SM Cursor (getUsingLoc U)) eqn:Hcur.
    + intros [= <-]. now left.
    + assert (HcurU : atOrBeforeCursor SM Cursor U = true)
        by (unfold atOrBeforeCursor; now rewrite Hcur).
      destruct (getAsNamespace (getQualifier U)) as [UN|] eqn:HUN;
        [|discriminate].
      destruct (namespaceOf Q) as [QN|] eqn:HQN; [|discriminate].
      destruct (_ && _) eqn:Hsame.
      * intros [= <-]. split; [reflexivity|].
        exists U, QN. repeat split; try assumption; [now left|].
        unfold bindsSame. now rewrite HUN.
      * intros Hrest. specialize (IH _ _ Hrest).
        destruct Exit as [Out|L'].
        -- destruct IH as (HOut & V & QN' & HIn & HQ & HV & Hdup).
           split; [exact HOut|]. exists V, QN'.
           repeat split; try assumption. now right.
        -- right. destruct IH as [->|(V & HIn & HV & HL)].
           ++ exists U. repeat split; [now left | assumption].
           ++ exists V. repeat split; [now right | assumption | assumption].
Qed.

(** The four ways [findInsertionPoint] ends well. *)
Lemma findInsertionPoint_Success (Inputs : Selection)
  (Q : NestedNameSpecifierLoc) (Name : string) (Out : InsertionPointData) :
  let SM := getSourceManager (AST Inputs) in
  findInsertionPoint Inputs Q Name = Success Out ->
  exists Ancestor,
    commonAncestor Inputs = Some Ancestor
    /\ ((Out = emptyInsertionPointData
         /\ exists U QN,
              In U (collectedUsings Inputs Ancestor)
              /\ namespaceOf Q = Some QN
              /\ atOrBeforeCursor SM (Cursor Inputs) U = true
              /\ bindsSame QN Name U = true)
        \/ (Suffix Out = ""
            /\ isValid (Loc Out) = true
            /\ exists U,
                 In U (collectedUsings Inputs Ancestor)
                 /\ atOrBeforeCursor SM (Cursor Inputs) U = true
                 /\ Loc Out = getUsingLoc U)
        \/ (Suffix Out = newline
            /\ isInvalid (Loc Out) = false
            /\ isMacroID (Loc Out) = false
            /\ exists ND Tok,
                 dyn_cast_NamespaceDecl
                   (getEnclosingNamespaceContext (Node_getDeclContext Ancestor))
                 = Some ND
                 /\ In Tok (expandedTokens (getTokens (AST Inputs))
                                           (getSourceRange ND))
                 /\ is_l_brace (kind Tok) = true
                 /\ Loc Out = endLocation Tok)
        \/ (Suffix Out = (newline ++ newline)%string
            /\ exists TLD0 Rest,
                 getLocalTopLevelDecls (AST Inputs) = TLD0 :: Rest
                 /\ Loc Out = getExpansionLoc SM (getDeclBeginLoc TLD0))).
Proof.
  intros SM. unfold findInsertionPoint. fold SM.
  destruct (commonAncestor Inputs) as [Ancestor|]; [|discriminate].
  intros H. exists Ancestor. split; [reflexivity|].
  fold (collectedUsings Inputs Ancestor) in H.
  destruct (scanUsings _ _ _ _ _ _) as [Exit| |] eqn:Hscan;
    [|discriminate|discriminate].
  apply scanUsings_Success in Hscan. cbn [bind] in H.
  assert (Htop : aboveFirstTopLevelDecl SM (AST Inputs) = Success Out ->
                 Suffix Out = (newline ++ newline)%string
                 /\ exists TLD0 Rest,
                      getLocalTopLevelDecls (AST Inputs) = TLD0 :: Rest
                      /\ Loc Out = getExpansionLoc SM (getDeclBeginLoc TLD0)).
  { unfold aboveFirstTopLevelDecl.
    destruct (getLocalTopLevelDecls (AST Inputs)) as [|TLD0 Rest];
      [discriminate|].
    intros [= <-]. split; [reflexivity|]. now exists TLD0, Rest. }
  destruct Exit as [Out'|L'].
  - left. injection H as <-. exact Hscan.
  - destruct (isValid L') eqn:Hvalid.
    + right. left. injection H as <-. cbn [Suffix Loc].
      repeat split; [exact Hvalid|].
      destruct Hscan as [->|Hanchor]; [discriminate Hvalid | exact Hanchor].
    + right. right.
      destruct (dyn_cast_NamespaceDecl _) as [ND|] eqn:HND; [|right; auto].
      destruct (find _ _) as [Tok|] eqn:Hfind; [|discriminate].
      apply find_some in Hfind as [HIn Hbrace].
      destruct (isInvalid (endLocation Tok)) eqn:Hinv; [discriminate|].
      destruct (isMacroID (endLocation Tok)) eqn:Hmacro; [right; auto|].
      left. injection H as <-. cbn [Suffix Loc].
      repeat split; try assumption. now exists ND, Tok.
Qed.

(** X7: [findInsertionPoint] answers with the empty insertion point, "the
    using statement already exists", only when the scanner collected a
    using-declaration that the cursor is not before and that binds the same
    name of the same canonical namespace as the candidate. *)
Theorem X7_absent_only_for_duplicate (Inputs : Selection)
  (Q : NestedNameSpecifierLoc) (Name : string) :
  findInsertionPoint Inputs Q Name = Success emptyInsertionPointData ->
  exists Ancestor U QN,
    commonAncestor Inputs = Some Ancestor
    /\ In U (collectedUsings Inputs Ancestor)
    /\ namespaceOf Q = Some QN
    /\ atOrBeforeCursor (getSourceManager (AST Inputs)) (Cursor Inputs) U = true
    /\ bindsSame QN Name U = true.
Proof.
  intros H. apply findInsertionPoint_Success in H.
  destruct H as (Ancestor & HA & [H|[H|[H|H]]]).
  - destruct H as (_ & U & QN & H). now exists Ancestor, U, QN.
  - destruct H as (_ & Hvalid & _). discriminate Hvalid.
  - destruct H as (Hsuffix & _). discriminate Hsuffix.
  - destruct H as (Hsuffix & _). discriminate Hsuffix.
Qed.

(** X7 on the file of [Dup]. *)
Lemma X7_witness :
  exists Ancestor U QN,
    commonAncestor Dup.Inputs = Some Ancestor
    /\ In U (collectedUsings Dup.Inputs Ancestor)
    /\ namespaceOf Dup.Qualifier = Some QN
    /\ atOrBeforeCursor oneFileSM (Cursor Dup.Inputs) U = true
    /\ bindsSame QN "f" U = true.
Proof.
  exact (X7_absent_only_for_duplicate Dup.Inputs Dup.Qualifier "f" eq_refl).
Defined.

(** X8: an insertion point with an empty suffix and a valid location is the
    location of a using-declaration that the scanner collected and that the
    cursor is not before; it lies in the main file, which is what [apply]
    asserts before it adds the insertion. *)
Theorem X8_anchor_is_collected_using (Inputs : Selection)
  (Q : NestedNameSpecifierLoc) (Name : string) (Out : InsertionPointData) :
  let SM := getSourceManager (AST Inputs) in
  findInsertionPoint Inputs Q Name = Success Out ->
  Suffix Out = "" ->
  isValid (Loc Out) = true ->
  getFileID SM (Loc Out) = getMainFileID SM
  /\ exists Ancestor U,
       commonAncestor Inputs = Some Ancestor
       /\ In U (collectedUsings Inputs Ancestor)
       /\ atOrBeforeCursor SM (Cursor Inputs) U = true
       /\ Loc Out = getUsingLoc U.
Proof.
  intros SM H Hsuffix Hvalid. apply findInsertionPoint_Success in H.
  fold SM in H. destruct H as (Ancestor & HA & [H|[H|[H|H]]]).
  - destruct H as (-> & _). discriminate Hvalid.
  - destruct H as (_ & _ & U & HIn & Hcur & HLoc). split.
    + pose proof (collectedUsings_relevant Inputs Ancestor) as Hrel.
      rewrite Forall_forall in Hrel. destruct (Hrel U HIn) as [Hfile _].
      fold SM in Hfile. now rewrite HLoc.
    + now exists Ancestor, U.
  - destruct H as (Hnl & _). rewrite Hsuffix in Hnl. discriminate Hnl.
  - destruct H as (Hnl & _). rewrite Hsuffix in Hnl. discriminate Hnl.
Qed.

(** X8 on the file of [Anchor]. *)
Lemma X8_witness :
  getFileID oneFileSM (at_ 36) = getMainFileID oneFileSM
  /\ exists Ancestor U,
       commonAncestor Anchor.Inputs = Some Ancestor
       /\ In U (collectedUsings Anchor.Inputs Ancestor)
       /\ atOrBeforeCursor oneFileSM (Cursor Anchor.Inputs) U = true
       /\ at_ 36 = getUsingLoc U.
Proof.
  exact (X8_anchor_is_collected_using
           Anchor.Inputs Anchor.Qualifier "f"
           (mkInsertionPointData (at_ 36) "") eq_refl eq_refl eq_refl).
Defined.

(** X9: an insertion point with a suffix of one newline is the end of an
    opening brace among the tokens of the namespace around the selection,
    and that location is neither invalid nor from a macro expansion. *)
Theorem X9_namespace_level_after_brace (Inputs : Selection)
  (Q : NestedNameSpecifierLoc) (Name : string) (Out : InsertionPointData) :
  findInsertionPoint Inputs Q Name = Success Out ->
  Suffix Out = newline ->
  isInvalid (Loc Out) = false
  /\ isMacroID (Loc Out) = false
  /\ exists Ancestor ND Tok,
       commonAncestor Inputs = Some Ancestor
       /\ dyn_cast_NamespaceDecl
            (getEnclosingNamespaceContext (Node_getDeclContext Ancestor))
          = Some ND
       /\ In Tok (expandedTokens (getTokens (AST Inputs)) (getSourceRange ND))
       /\ is_l_brace (kind Tok) = true
       /\ Loc Out = endLocation Tok.
Proof.
  intros H Hsuffix. apply findInsertionPoint_Success in H.
  destruct H as (Ancestor & HA & [H|[H|[H|H]]]).
  - destruct H as (-> & _). discriminate Hsuffix.
  - destruct H as (Hempty & _). rewrite Hsuffix in Hempty.
    discriminate Hempty.
  - destruct H as (_ & Hinv & Hmacro & ND & Tok & H).
    repeat split; try assumption. now exists Ancestor, ND, Tok.
  - destruct H as (Hnl & _). rewrite Hsuffix in Hnl. discriminate Hnl.
Qed.

(** X9 on the file of [InNamespace]: the insertion point is right after the
    brace of [namespace n]. *)
Lemma X9_witness :
  isInvalid (at_ 39) = false
  /\ isMacroID (at_ 39) = false
  /\ exists Ancestor ND Tok,
       commonAncestor InNamespace.Inputs = Some Ancestor
       /\ dyn_cast_NamespaceDecl
            (getEnclosingNamespaceContext (Node_getDeclContext Ancestor))
          = Some ND
       /\ In Tok (expandedTokens (getTokens (AST InNamespace.Inputs))
                                 (getSourceRange ND))
       /\ is_l_brace (kind Tok) = true
       /\ at_ 39 = endLocation Tok.
Proof.
  exact (X9_namespace_level_after_brace
           InNamespace.Inputs InNamespace.Qualifier "f"
           (mkInsertionPointData (at_ 39) newline) eq_refl eq_refl).
Defined.

(** X10: with no using-declaration for the loop to look at and no namespace
    around the selection, [findInsertionPoint] fails with "Cannot find place
    to insert" when the file has no top-level declaration, and otherwise
    answers the expansion location of the begin of the first one, with a
    suffix of two newlines. *)
Theorem X10_file_level_fallback (Inputs : Selection)
  (Q : NestedNameSpecifierLoc) (Name : string) (Ancestor : Node) :
  let SM := getSourceManager (AST Inputs) in
  commonAncestor Inputs = Some Ancestor ->
  existsb (atOrBeforeCursor SM (Cursor Inputs))
          (firstn 1 (collectedUsings Inputs Ancestor)) = false ->
  dyn_cast_NamespaceDecl
    (getEnclosingNamespaceContext (Node_getDeclContext Ancestor)) = None ->
  match getLocalTopLevelDecls (AST Inputs) with
  | [] => findInsertionPoint Inputs Q Name = Failure msgCannotFindPlace
  | TLD0 :: _ =>
      findInsertionPoint Inputs Q Name
      = Success (mkInsertionPointData
                   (getExpansionLoc SM (getDeclBeginLoc TLD0))
                   (newline ++ newline))
  end.
Proof.
  intros SM HA Hnone HNS.
  assert (H : findInsertionPoint Inputs Q Name
              = aboveFirstTopLevelDecl SM (AST Inputs)).
  { unfold collectedUsings in Hnone. fold SM in Hnone.
    unfold findInsertionPoint. rewrite HA. fold SM.
    rewrite scanUsings_stop.
    - cbn [bind isValid NoLoc ID Z.eqb negb]. now rewrite HNS.
    - destruct (TraverseAST _ SM (AST Inputs)) as [|V Rest]; [exact I|].
      cbn in Hnone. now rewrite orb_false_r in Hnone. }
  rewrite H. unfold aboveFirstTopLevelDecl.
  now destruct (getLocalTopLevelDecls (AST Inputs)).
Qed.

(** X10 on the file of [Nested], which has top-level declarations, and on
    the file of [MacroArg], which has none. *)
Lemma X10_witness :
  findInsertionPoint Nested.Inputs Nested.Qualifier "f"
  = Success (mkInsertionPointData (at_ 0) (newline ++ newline))
  /\ findInsertionPoint MacroArg.Inputs MacroArg.Qualifier "f"
     = Failure msgCannotFindPlace.
Proof.
  split.
  - exact (X10_file_level_fallback
             Nested.Inputs Nested.Qualifier "f" Nested.QualifierNode
             eq_refl eq_refl eq_refl).
  - exact (X10_file_level_fallback
             MacroArg.Inputs MacroArg.Qualifier "f" MacroArg.RefNode
             eq_refl eq_refl eq_refl).
Defined.

(** ** From [prepare] to [apply] *)

Lemma scanUsings_defined (SM : SourceManager) (Cursor : SourceLocation)
  (Q : NestedNameSpecifierLoc) (Name : string) (QN : NamespaceDecl)
  (Usings : list UsingDecl) :
  namespaceOf Q = Some QN ->
  forallb hasNamespaceQualifier Usings = true ->
  forall L, exists Exit, scanUsings SM Cursor Q Name Usings L = Success Exit.
Proof.
  intros HQ. induction Usings as [|U Usings IH]; intros Hall L;
    cbn [scanUsings].
  - eauto.
  - cbn [forallb] in Hall. apply andb_true_iff in Hall as [HU Hall].
    destruct (isBeforeInTranslationUnit SM Cursor (getUsingLoc U)); [eauto|].
    unfold hasNamespaceQualifier in HU. rewrite HQ.
    destruct (getAsNamespace (getQualifier U)) as [UN|]; [|discriminate].
    destruct (_ && _); [eauto|]. now apply IH.
Qed.

Lemma prepare_true_selection (Inputs : Selection) (This0 This : AddUsing) :
  prepare Inputs This0 = (true, This) ->
  exists Ancestor, commonAncestor Inputs = Some Ancestor.
Proof.
  unfold prepare. destruct (commonAncestor Inputs) as [Ancestor|];
    [eauto | discriminate].
Qed.

(** X11: once [prepare] has accepted the candidate, and as long as every
    using-declaration the scanner collects has a namespace qualifier,
    neither [findInsertionPoint] nor [apply] goes through a null pointer:
    [findInsertionPoint] returns an insertion point or an error. *)
Theorem X11_no_null_dereference_after_prepare
  (Inputs : Selection) (This0 This : AddUsing) :
  prepare Inputs This0 = (true, This) ->
  (forall Ancestor,
      commonAncestor Inputs = Some Ancestor ->
      forallb hasNamespaceQualifier (collectedUsings Inputs Ancestor) = true) ->
  (forall c,
      findInsertionPoint Inputs (QualifierToRemove This) (Name This)
      <> Undefined c)
  /\ apply Inputs This <> Undefined NullDereference.
Proof.
  intros Hprep Hall.
  destruct (prepare_true_selection _ _ _ Hprep) as (Ancestor & HA).
  destruct (prepare_true _ _ _ Hprep) as ((QN & HQ) & _).
  specialize (Hall Ancestor HA).
  assert (Hfind : forall c,
             findInsertionPoint Inputs (QualifierToRemove This) (Name This)
             <> Undefined c).
  { intros c. unfold findInsertionPoint. rewrite HA.
    fold (collectedUsings Inputs Ancestor).
    destruct (scanUsings_defined (getSourceManager (AST Inputs))
                (Cursor Inputs) _ (Name This) QN _ HQ Hall NoLoc)
      as (Exit & ->).
    cbn [bind]. destruct Exit as [Out|L']; [discriminate|].
    destruct (isValid L'); [discriminate|].
    unfold aboveFirstTopLevelDecl, createStringError.
    destruct (dyn_cast_NamespaceDecl _).
    - destruct (find _ _) as [Tok|]; [|discriminate].
      destruct (isInvalid _); [discriminate|].
      destruct (negb _); [discriminate|].
      now destruct (getLocalTopLevelDecls _).
    - now destruct (getLocalTopLevelDecls _). }
  split; [exact Hfind|].
  unfold apply, createStringError.
  destruct (spelledForExpanded _ _) as [Spelled|]; [|discriminate].
  destruct (front Spelled) as [First|]; [|discriminate].
  destruct (back Spelled) as [Last|]; [|discriminate].
  rewrite Replacements_add_empty. cbn [bind].
  destruct (findInsertionPoint Inputs _ _) as [IP|Msg|c] eqn:HIP;
    [|discriminate|now destruct (Hfind c)].
  cbn [bind]. destruct (isValid (Loc IP)); [|discriminate].
  unfold namespaceOf in HQ.
  destruct (getNestedNameSpecifier (QualifierToRemove This)) as [NNS|];
    [|discriminate].
  destruct (_ =? _); [|discriminate].
  unfold Replacements_add.
  destruct (existsb _ _); [discriminate|].
  destruct (existsb _ _); discriminate.
Qed.

(** X11 on the file of [Anchor]. *)
Lemma X11_witness :
  (forall c,
      findInsertionPoint Anchor.Inputs Anchor.Qualifier "f" <> Undefined c)
  /\ apply Anchor.Inputs (mkAddUsing Anchor.Qualifier "f")
     <> Undefined NullDereference.
Proof.
  apply (X11_no_null_dereference_after_prepare
           Anchor.Inputs newAddUsing (mkAddUsing Anchor.Qualifier "f")).
  - reflexivity.
  - intros Ancestor [= <-]. reflexivity.
Defined.

(** ** The traversal of the scanner *)

Section Traversal.

Variable Sel : DeclContext.
Variable SM : SourceManager.

(** Below a declaration whose context encloses the selection, the traversal
    is the traversal of the children. *)
Lemma TraverseDecl_DOther (Context : DeclContext) (BeginLoc : SourceLocation)
  (Children : list Decl) (Results : list UsingDecl) :
  TraverseDecl Sel SM (DOther Context BeginLoc Children) Results
  = if Encloses Context Sel then TraverseDecls Sel SM Children Results
    else (true, Results).
Proof.
  cbn [TraverseDecl getDeclContext].
  destruct (Encloses Context Sel); [|reflexivity].
  revert Results. induction Children as [|C Children IH]; intros Results.
  - reflexivity.
  - cbn [TraverseDecls].
    destruct (TraverseDecl Sel SM C Results) as [Continue R'].
    destruct Continue; [apply IH | reflexivity].
Qed.

Lemma VisitUsingDecl_accumulates (U : UsingDecl) (Results : list UsingDecl) :
  VisitUsingDecl Sel SM U Results
  = (true, (Results ++ snd (VisitUsingDecl Sel SM U []))%list).
Proof.
  unfold VisitUsingDecl.
  destruct (negb _); [now rewrite app_nil_r|].
  destruct (Encloses _ _); [reflexivity | now rewrite app_nil_r].
Qed.

Lemma TraverseDecls_accumulates_from (Ds : list Decl) :
  Forall (fun D => forall Results,
              TraverseDecl Sel SM D Results
              = (true, (Results ++ snd (TraverseDecl Sel SM D []))%list)) Ds ->
  forall Results,
    TraverseDecls Sel SM Ds Results
    = (true, (Results ++ snd (TraverseDecls Sel SM Ds []))%list).
Proof.
  induction 1 as [|D Ds HD _ IH]; intros Results; cbn [TraverseDecls].
  - now rewrite app_nil_r.
  - rewrite (HD Results), (HD []). cbn [app].
    rewrite (IH (Results ++ _)%list), (IH (snd _)).
    cbn [snd]. now rewrite app_assoc.
Qed.

Lemma TraverseDecl_accumulates (D : Decl) :
  forall Results,
    TraverseDecl Sel SM D Results
    = (true, (Results ++ snd (TraverseDecl Sel SM D []))%list).
Proof.
  induction D as [U|Context BeginLoc Children IH] using Decl_nested_ind;
    intros Results.
  - cbn [TraverseDecl getDeclContext].
    destruct (Encloses _ _); [|now rewrite app_nil_r].
    apply VisitUsingDecl_accumulates.
  - rewrite !TraverseDecl_DOther.
    destruct (Encloses Context Sel); [|now rewrite app_nil_r].
    now apply TraverseDecls_accumulates_from.
Qed.

Lemma TraverseDecls_accumulates (Ds : list Decl) (Results : list UsingDecl) :
  TraverseDecls Sel SM Ds Results
  = (true, (Results ++ snd (TraverseDecls Sel SM Ds []))%list).
Proof.
  apply TraverseDecls_accumulates_from.
  apply Forall_forall. intros D _. apply TraverseDecl_accumulates.
Qed.

(** X12: the traversal never stops early, and what it appends to the vector
    does not depend on what the vector held: the result is the old vector
    followed by what the same traversal collects from an empty one. *)
Theorem X12_TraverseDecls_appends (Ds : list Decl)
  (Results : list UsingDecl) :
  TraverseDecls Sel SM Ds Results
  = (true, (Results ++ snd (TraverseDecls Sel SM Ds []))%list).
Proof.
  revert Results. induction Ds as [|D Ds IH]; intros Results.
  - cbn [TraverseDecls snd]. now rewrite app_nil_r.
  - cbn [TraverseDecls].
    rewrite (TraverseDecl_accumulates D Results),
            (TraverseDecl_accumulates D []).
    cbn [app]. rewrite (IH (Results ++ _)%list), (IH (snd _)).
    cbn [snd]. now rewrite app_assoc.
Qed.

Lemma TraverseDecls_cons (D : Decl) (Ds : list Decl) :
  snd (TraverseDecls Sel SM (D :: Ds) [])
  = (snd (TraverseDecl Sel SM D []) ++ snd (TraverseDecls Sel SM Ds []))%list.
Proof.
  cbn [TraverseDecls]. rewrite (TraverseDecl_accumulates D []).
  cbn [app]. now rewrite TraverseDecls_accumulates.
Qed.

Lemma TraverseDecls_In (Ds : list Decl) (U : UsingDecl) :
  In U (snd (TraverseDecls Sel SM Ds []))
  <-> exists D, In D Ds /\ In U (snd (TraverseDecl Sel SM D [])).
Proof.
  induction Ds as [|D Ds IH].
  - cbn. split; [tauto | now intros (D & [] & _)].
  - rewrite TraverseDecls_cons, in_app_iff, IH. split.
    + intros [H|(D' & HIn & H)].
      * exists D. split; [now left | exact H].
      * exists D'. split; [now right | exact H].
    + intros (D' & [<-|HIn] & H); [now left|].
      right. now exists D'.
Qed.

Lemma TraverseDecl_reaches (D : Decl) :
  forall U,
    In U (snd (TraverseDecl Sel SM D []))
    <-> getFileID SM (getUsingLoc U) = getMainFileID SM /\ reaches Sel D U.
Proof.
  induction D as [V|Context BeginLoc Children IH] using Decl_nested_ind;
    intros U.
  - cbn [TraverseDecl getDeclContext]. unfold VisitUsingDecl.
    destruct (Encloses (getUsingDeclContext V) Sel) eqn:Henc.
    + destruct (getFileID SM (getUsingLoc V) =? getMainFileID SM) eqn:Hfile;
        cbn [negb snd app In].
      * apply Z.eqb_eq in Hfile. split.
        -- intros [<-|[]]. split; [exact Hfile | now constructor].
        -- intros [_ H]. inversion H; subst. now left.
      * apply Z.eqb_neq in Hfile. split; [tauto|].
        intros [HU H]. inversion H; subst. contradiction.
    + cbn [snd In]. split; [tauto|].
      intros [_ H]. inversion H; subst. congruence.
  - rewrite TraverseDecl_DOther.
    destruct (Encloses Context Sel) eqn:Henc.
    + rewrite TraverseDecls_In. rewrite Forall_forall in IH. split.
      * intros (C & HIn & H). apply (IH C HIn) in H as [Hfile Hreach].
        split; [exact Hfile|]. now apply reaches_child with (C := C).
      * intros [Hfile H]. inversion H; subst.
        exists C. split; [assumption|]. now apply IH.
    + cbn [snd In]. split; [tauto|].
      intros [_ H]. inversion H; subst. congruence.
Qed.

End Traversal.

(** X13: the scanner collects exactly the using-declarations that are
    written in the main file and that the traversal gets to from a
    declaration of the traversal scope through declarations whose contexts
    all enclose the selection; a using-declaration below a declaration whose
    context does not enclose the selection is never collected. *)
Theorem X13_collected_iff_reached (Inputs : Selection) (Ancestor : Node)
  (U : UsingDecl) :
  In U (collectedUsings Inputs Ancestor)
  <-> getFileID (getSourceManager (AST Inputs)) (getUsingLoc U)
      = getMainFileID (getSourceManager (AST Inputs))
      /\ exists D,
           In D (getTraversalScope (AST Inputs))
           /\ reaches (Node_getDeclContext Ancestor) D U.
Proof.
  unfold collectedUsings, TraverseAST. rewrite TraverseDecls_In. split.
  - intros (D & HIn & H). apply TraverseDecl_reaches in H as [Hfile Hreach].
    split; [exact Hfile|]. now exists D.
  - intros (Hfile & D & HIn & Hreach). exists D. split; [exact HIn|].
    now apply TraverseDecl_reaches.
Qed.

(** X13 on the file of [Anchor]: the using-declaration of [a::g] is reached
    and collected. *)
Lemma X13_witness :
  In Anchor.UsingG (collectedUsings Anchor.Inputs Anchor.RefNode).
Proof.
  apply (proj2 (X13_collected_iff_reached
                  Anchor.Inputs Anchor.RefNode Anchor.UsingG)).
  split; [reflexivity|].
  exists (DUsing Anchor.UsingG). split.
  - right. left. reflexivity.
  - apply reaches_using. reflexivity.
Defined.

(** ** The edits *)

Lemma insertOrdered_keeps (New Old : Replacement) (R : Replacements) :
  In Old R -> In Old (insertOrdered New R).
Proof.
  induction R as [|A R IH]; [contradiction|].
  intros HIn. cbn [insertOrdered].
  destruct (Replacement_before New A); [now right|].
  destruct HIn as [<-|HIn]; [now left | right; now apply IH].
Qed.

Lemma insertOrdered_In_inv (New X : Replacement) (R : Replacements) :
  In X (insertOrdered New R) -> X = New \/ In X R.
Proof.
  induction R as [|A R IH]; cbn [insertOrdered].
  - intros [<-|[]]. now left.
  - destruct (Replacement_before New A).
    + intros [<-|H]; [now left | now right].
    + intros [<-|H]; [right; now left|].
      destruct (IH H) as [->|HIn]; [now left | right; now right].
Qed.

Lemma Replacements_add_Success (R R' : Replacements) (New : Replacement) :
  Replacements_add R New = Success R' -> R' = insertOrdered New R.
Proof.
  unfold Replacements_add.
  destruct (existsb _ R); [discriminate|].
  destruct (existsb _ R); [discriminate|].
  now intros [= <-].
Qed.

(** X14: the edits of a successful [apply] always contain the deletion of
    the qualifier, from its first spelled token to its last; any other edit
    is an insertion, of length 0, at a valid location of the main file that
    [findInsertionPoint] returned. *)
Theorem X14_apply_deletes_and_inserts
  (Inputs : Selection) (This : AddUsing) (E : Effect) :
  let SM := getSourceManager (AST Inputs) in
  apply Inputs This = Success E ->
  exists R Spelled First Last,
    E = mainFileEdit SM R
    /\ qualifierTokens Inputs This = Some Spelled
    /\ front Spelled = Some First
    /\ back Spelled = Some Last
    /\ In (qualifierDeletion SM First Last) R
    /\ forall Edit,
         In Edit R ->
         Edit = qualifierDeletion SM First Last
         \/ (getLength Edit = 0
             /\ exists InsertionPoint,
                  findInsertionPoint Inputs (QualifierToRemove This)
                                     (Name This)
                  = Success InsertionPoint
                  /\ isValid (Loc InsertionPoint) = true
                  /\ getFileID SM (Loc InsertionPoint) = getMainFileID SM
                  /\ getOffset Edit
                     = snd (getDecomposedLoc SM (Loc InsertionPoint))).
Proof.
  intros SM Happly.
  destruct (apply_Success _ _ _ Happly)
    as (Spelled & First & Last & IP & Htoks & HF & HL & Hfind & Hcases).
  fold SM in Hcases.
  destruct Hcases as [[_ ->]|[Hvalid (NNS & R & _ & Hfile & Hadd & ->)]].
  - exists [qualifierDeletion SM First Last], Spelled, First, Last.
    repeat split; try assumption; [now left|].
    intros Edit [<-|[]]. now left.
  - exists R, Spelled, First, Last.
    apply Replacements_add_Success in Hadd.
    split; [reflexivity|]. split; [exact Htoks|].
    split; [exact HF|]. split; [exact HL|]. split.
    + rewrite Hadd. apply insertOrdered_keeps. now left.
    + intros Edit HIn. rewrite Hadd in HIn.
      apply insertOrdered_In_inv in HIn.
      destruct HIn as [->|[<-|[]]]; [right | now left].
      split; [reflexivity|]. exists IP. repeat split; assumption.
Qed.

(** X14 on the file of [Anchor]. *)
Lemma X14_witness :
  exists R Spelled First Last,
    mainFileEdit oneFileSM
      [mkRawReplacement 1 36 0 "using a::f;"; mkRawReplacement 1 59 3 ""]
    = mainFileEdit oneFileSM R
    /\ qualifierTokens Anchor.Inputs (mkAddUsing Anchor.Qualifier "f")
       = Some Spelled
    /\ front Spelled = Some First
    /\ back Spelled = Some Last
    /\ In (qualifierDeletion oneFileSM First Last) R
    /\ forall Edit,
         In Edit R ->
         Edit = qualifierDeletion oneFileSM First Last
         \/ (getLength Edit = 0
             /\ exists InsertionPoint,
                  findInsertionPoint Anchor.Inputs Anchor.Qualifier "f"
                  = Success InsertionPoint
                  /\ isValid (Loc InsertionPoint) = true
                  /\ getFileID oneFileSM (Loc InsertionPoint)
                     = getMainFileID oneFileSM
                  /\ getOffset Edit
                     = snd (getDecomposedLoc oneFileSM (Loc InsertionPoint))).
Proof.
  exact (X14_apply_deletes_and_inserts
           Anchor.Inputs (mkAddUsing Anchor.Qualifier "f") _ eq_refl).
Defined.

(** What [Replacements_add] checked when it accepted a second entry. *)
Lemma Replacements_add_same_file (Old New : Replacement) (R' : Replacements) :
  Replacements_add [Old] New = Success R' ->
  getFilePath Old = getFilePath New.
Proof.
  unfold Replacements_add. cbn [existsb]. rewrite orb_false_r.
  destruct (getFilePath Old =? getFilePath New) eqn:Hfile; [|discriminate].
  intros _. now apply Z.eqb_eq.
Qed.

(** X16: a successful [apply] hands out one edit of the main file with one
    or two replacements, no two of which overlap, all for the same file;
    when there are two, the deletion and the insertion, and the source
    manager decomposes a location into the file [getFileID] gives, that file
    is the main file. *)
Theorem X16_apply_edits_share_a_file
  (Inputs : Selection) (This : AddUsing) (E : Effect) :
  let SM := getSourceManager (AST Inputs) in
  (forall L, fst (getDecomposedLoc SM L) = getFileID SM L) ->
  apply Inputs This = Success E ->
  exists R,
    ApplyEdits E = [(getMainFileID SM, R)]
    /\ (1 <= List.length R <= 2)%nat
    /\ noOverlap R = true
    /\ (forall A B, In A R -> In B R -> getFilePath A = getFilePath B)
    /\ (List.length R = 2%nat ->
        forall A, In A R -> getFilePath A = getMainFileID SM).
Proof.
  intros SM Hdecomposed Happly.
  destruct (apply_Success _ _ _ Happly)
    as (Spelled & First & Last & IP & _ & _ & _ & _ & Hcases).
  fold SM in Hcases.
  destruct Hcases as [[_ ->]|[_ (NNS & R & _ & Hfile & Hadd & ->)]].
  - eexists. split; [reflexivity|]. split; [cbn; lia|].
    split; [reflexivity|]. split.
    + now intros A B [<-|[]] [<-|[]].
    + discriminate.
  - exists R. split; [reflexivity|].
    pose proof (Replacements_add_singleton _ _ _ Hadd) as [Hlen Hno].
    pose proof (Replacements_add_same_file _ _ _ Hadd) as Hsame.
    apply Replacements_add_Success in Hadd.
    assert (Hmain : forall A, In A R -> getFilePath A = getMainFileID SM).
    { intros A HIn. rewrite Hadd in HIn. apply insertOrdered_In_inv in HIn.
      assert (Hins : getFilePath
                       (mkReplacement SM (Loc IP) 0
                          ("using " ++ print NNS ++ Name This ++ ";"
                           ++ Suffix IP)) = getMainFileID SM).
      { cbn [mkReplacement getFilePath]. now rewrite Hdecomposed. }
      destruct HIn as [->|[<-|[]]]; [exact Hins|].
      now rewrite Hsame. }
    split; [lia|]. split; [exact Hno|]. split.
    + intros A B HA HB. now rewrite (Hmain A HA), (Hmain B HB).
    + intros _. exact Hmain.
Qed.

(** X16 on the file of [Anchor]. *)
Lemma X16_witness :
  exists R,
    ApplyEdits (mainFileEdit oneFileSM
                  [mkRawReplacement 1 36 0 "using a::f;";
                   mkRawReplacement 1 59 3 ""])
    = [(getMainFileID oneFileSM, R)]
    /\ (1 <= List.length R <= 2)%nat
    /\ noOverlap R = true
    /\ (forall A B, In A R -> In B R -> getFilePath A = getFilePath B)
    /\ (List.length R = 2%nat ->
        forall A, In A R -> getFilePath A = getMainFileID oneFileSM).
Proof.
  exact (X16_apply_edits_share_a_file
           Anchor.Inputs (mkAddUsing Anchor.Qualifier "f") _
           (fun L => eq_refl) eq_refl).
Defined.
